(** * MLX fine-tuning notebook: the glue code of [mlx-fine-tuning.ipynb]

    A shallow embedding of the four pieces of Python the notebook defines:
    the [Dataset] class, [load_dataset], [modify_model_with_lora] and
    [train_model].  Python exceptions are values of [exn], fallible
    expressions live in [result], and code with observable effects (file
    access, attribute replacement, the call of the external trainer) lives
    in [io], which also records the effects in program order. *)

From Stdlib Require Import ZArith Ascii String Lia.
From stdpp Require Import list strings.

Open Scope string_scope.
Open Scope list_scope.
Open Scope Z_scope.

(** ** Exceptions and results *)

Inductive exn :=
| FileNotFoundError (path : string)
| JSONDecodeError (msg : string)
| IndexError
| KeyError (key : string)
| TypeError
| AttributeError (name : string).

Inductive result (A : Type) :=
| Ok (a : A)
| Raise (e : exn).
Arguments Ok {A} a.
Arguments Raise {A} e.

#[global] Instance result_ret : MRet result := fun A a => Ok a.
#[global] Instance result_bind : MBind result :=
  fun A B f m => match m with Ok a => f a | Raise e => Raise e end.
#[global] Instance result_fmap : FMap result :=
  fun A B f m => match m with Ok a => Ok (f a) | Raise e => Raise e end.

(** A computation with effects of type [E]: its outcome and the effects it
    performed, oldest first.  The effects performed before an exception
    are kept. *)
Definition io (E A : Type) : Type := (result A * list E)%type.

#[global] Instance io_ret {E} : MRet (io E) := fun A a => (Ok a, []).
#[global] Instance io_bind {E} : MBind (io E) :=
  fun A B f m =>
    match m with
    | (Ok a, t) => let '(r, t') := f a in (r, t ++ t')
    | (Raise e, t) => (Raise e, t)
    end.

Definition tell {E} (e : E) : io E unit := (Ok tt, [e]).
Definition lift {E A} (r : result A) : io E A := (r, []).
Definition outcome {E A} (m : io E A) : result A := fst m.
Definition effects {E A} (m : io E A) : list E := snd m.

(** ** Python values produced by [json.loads]

    A [str] is kept as its UTF-8 bytes, a [float] as the text it was read
    from, a [dict] as its items in insertion order (keys are unique). *)

#[local] Unset Elimination Schemes.
Inductive pyvalue :=
| PyNone
| PyBool (b : bool)
| PyInt (n : Z)
| PyFloat (lexeme : string)
| PyStr (s : string)
| PyList (items : list pyvalue)
| PyDict (items : list (string * pyvalue)).
#[local] Set Elimination Schemes.

(** [d[k]] and [d[k] = v] on the items of a dict. *)
Fixpoint dict_get {V} (d : list (string * V)) (k : string) : option V :=
  match d with
  | [] => None
  | (k', v) :: d' => if String.eqb k' k then Some v else dict_get d' k
  end.

Fixpoint dict_set {V} (d : list (string * V)) (k : string) (v : V)
  : list (string * V) :=
  match d with
  | [] => [(k, v)]
  | (k', v') :: d' =>
      if String.eqb k' k then (k', v) :: d' else (k', v') :: dict_set d' k v
  end.

Definition dict_has {V} (d : list (string * V)) (k : string) : bool :=
  match dict_get d k with Some _ => true | None => false end.

(** [dict(pairs)]: a later pair replaces the value of an earlier one with
    the same key. *)
Definition dict_of_pairs {V} (pairs : list (string * V)) : list (string * V) :=
  fold_left (fun d kv => dict_set d (fst kv) (snd kv)) pairs [].

(** ** [json.loads]: the decoder of the standard library

    The notebook calls [json.loads(line)] on every line.  The decoder is
    the one of CPython ([json.decoder], [json.scanner]) with its default
    options: any JSON value at top level, surrounding white space allowed,
    [NaN], [Infinity] and [-Infinity] accepted, control characters refused
    inside strings, escapes decoded, a later duplicate key winning.
    Positions are left out of [JSONDecodeError]; the interpreter's
    recursion limit and its limit on the digits of an integer are not
    modelled. *)
Module json.

(** The double quote. *)
Definition quote : ascii := "034"%char.

Definition is_ws (c : ascii) : bool :=
  match c with
  | " "%char | "009"%char | "010"%char | "013"%char => true
  | _ => false
  end.

Fixpoint skip_ws (s : string) : string :=
  match s with
  | String c r => if is_ws c then skip_ws r else s
  | EmptyString => s
  end.

Definition is_digit (c : ascii) : bool :=
  let n := N_of_ascii c in ((48 <=? n) && (n <=? 57))%N.

Definition hex_digit (c : ascii) : option N :=
  let n := N_of_ascii c in
  if ((48 <=? n) && (n <=? 57))%N then Some (n - 48)%N
  else if ((65 <=? n) && (n <=? 70))%N then Some (n - 55)%N
  else if ((97 <=? n) && (n <=? 102))%N then Some (n - 87)%N
  else None.

Definition hex4 (a b c d : ascii) : option N :=
  x1 ← hex_digit a; x2 ← hex_digit b; x3 ← hex_digit c; x4 ← hex_digit d;
  Some (((x1 * 16 + x2) * 16 + x3) * 16 + x4)%N.

Definition byte (n : N) : string := String (ascii_of_N n) EmptyString.

(** [chr(u)] as UTF-8; a lone surrogate keeps its three-byte form. *)
Definition chr (u : N) : string :=
  (if u <? 128 then byte u
   else if u <? 2048 then byte (192 + u / 64) +:+ byte (128 + u mod 64)
   else if u <? 65536 then
     byte (224 + u / 4096) +:+ byte (128 + (u / 64) mod 64)
     +:+ byte (128 + u mod 64)
   else
     byte (240 + u / 262144) +:+ byte (128 + (u / 4096) mod 64)
     +:+ byte (128 + (u / 64) mod 64) +:+ byte (128 + u mod 64))%N.

(** The table [BACKSLASH] of the decoder. *)
Definition backslash (c : ascii) : option ascii :=
  match c with
  | "034"%char => Some "034"%char
  | "\"%char => Some "\"%char
  | "/"%char => Some "/"%char
  | "b"%char => Some "008"%char
  | "f"%char => Some "012"%char
  | "n"%char => Some "010"%char
  | "r"%char => Some "013"%char
  | "t"%char => Some "009"%char
  | _ => None
  end.

Definition unterminated : exn :=
  JSONDecodeError "Unterminated string starting at".
Definition invalid_uXXXX : exn := JSONDecodeError "Invalid \uXXXX escape".
Definition invalid_escape : exn := JSONDecodeError "Invalid \escape".
Definition invalid_control : exn :=
  JSONDecodeError "Invalid control character at".

Definition high_surrogate (u : N) : bool := ((55296 <=? u) && (u <=? 56319))%N.
Definition low_surrogate (u : N) : bool := ((56320 <=? u) && (u <=? 57343))%N.
Definition join_surrogates (u u2 : N) : N :=
  (65536 + ((u - 55296) * 1024 + (u2 - 56320)))%N.

(** [scanstring]: the input starts just after the opening quote; the
    result is the decoded string and what follows the closing quote. *)
Fixpoint scanstring (s : string) : result (string * string) :=
  match s with
  | EmptyString => Raise unterminated
  | String c r =>
      if Ascii.eqb c quote then Ok (EmptyString, r)
      else if Ascii.eqb c "\" then
        match r with
        | EmptyString => Raise unterminated
        | String e r1 =>
            if Ascii.eqb e "u" then
              match r1 with
              | String h1 (String h2 (String h3 (String h4 r2))) =>
                  match hex4 h1 h2 h3 h4 with
                  | None => Raise invalid_uXXXX
                  | Some uni =>
                      let lone :=
                        '(tl, rest) ← scanstring r2;
                        Ok (chr uni +:+ tl, rest) in
                      if high_surrogate uni then
                        match r2 with
                        | String b1 (String b2 r3) =>
                            if Ascii.eqb b1 "\" && Ascii.eqb b2 "u" then
                              match r3 with
                              | String g1 (String g2 (String g3 (String g4 r4))) =>
                                  match hex4 g1 g2 g3 g4 with
                                  | None => Raise invalid_uXXXX
                                  | Some uni2 =>
                                      if low_surrogate uni2 then
                                        '(tl, rest) ← scanstring r4;
                                        Ok (chr (join_surrogates uni uni2)
                                            +:+ tl, rest)
                                      else lone
                                  end
                              | _ => Raise invalid_uXXXX
                              end
                            else lone
                        | _ => lone
                        end
                      else lone
                  end
              | _ => Raise invalid_uXXXX
              end
            else
              match backslash e with
              | Some c' => '(tl, rest) ← scanstring r1; Ok (String c' tl, rest)
              | None => Raise invalid_escape
              end
        end
      else if (N_of_ascii c <? 32)%N then Raise invalid_control
      else '(tl, rest) ← scanstring r; Ok (String c tl, rest)
  end.

(** [s[:1] == c], returning what follows. *)
Definition expect (c : ascii) (s : string) : option string :=
  match s with
  | String c' r => if Ascii.eqb c' c then Some r else None
  | EmptyString => None
  end.

(** The longest prefix of decimal digits, and the rest. *)
Fixpoint digits (s : string) : string * string :=
  match s with
  | String c r =>
      if is_digit c then let '(ds, rest) := digits r in (String c ds, rest)
      else (EmptyString, s)
  | EmptyString => (EmptyString, s)
  end.

Definition int_of_digits (ds : string) : Z :=
  fold_left (fun acc c => acc * 10 + (Z.of_N (N_of_ascii c) - 48))
            (list_ascii_of_string ds) 0.

(** [NUMBER_RE]: an optional minus sign and either a single zero or a
    non-zero digit and more digits; then, optionally, a point and one or
    more digits; then, optionally, [e] or [E], an optional sign and one or
    more digits.  An integer part alone is an [int], anything more a
    [float]. *)
Definition match_number (s : string) : option (pyvalue * string) :=
  let '(neg, s1) :=
    match expect "-" s with Some r => (true, r) | None => (false, s) end in
  '(int_part, s2) ←
    match s1 with
    | String c r =>
        if Ascii.eqb c "0" then Some ("0", r)
        else if is_digit c then
          let '(ds, rest) := digits r in Some (String c ds, rest)
        else None
    | EmptyString => None
    end;
  let '(frac, s3) :=
    match expect "." s2 with
    | Some r =>
        match digits r with
        | (EmptyString, _) => (EmptyString, s2)
        | (ds, rest) => (String "." ds, rest)
        end
    | None => (EmptyString, s2)
    end in
  let '(exp, s4) :=
    match s3 with
    | String e r =>
        if Ascii.eqb e "e" || Ascii.eqb e "E" then
          let '(sign, r') :=
            match expect "-" r, expect "+" r with
            | Some r', _ => ("-", r')
            | None, Some r' => ("+", r')
            | None, None => (EmptyString, r)
            end in
          match digits r' with
          | (EmptyString, _) => (EmptyString, s3)
          | (ds, rest) => (String e (sign +:+ ds), rest)
          end
        else (EmptyString, s3)
    | EmptyString => (EmptyString, s3)
    end in
  match frac, exp with
  | EmptyString, EmptyString =>
      let n := int_of_digits int_part in
      Some (PyInt (if neg : bool then - n else n), s4)
  | _, _ =>
      Some (PyFloat ((if neg : bool then "-" else EmptyString) +:+ int_part
                     +:+ frac +:+ exp), s4)
  end.

(** [s[idx:idx + len(w)] == w], returning what follows. *)
Fixpoint strip_prefix (w s : string) : option string :=
  match w, s with
  | EmptyString, _ => Some s
  | String a w', String b s' =>
      if Ascii.eqb a b then strip_prefix w' s' else None
  | _, EmptyString => None
  end.

Definition expecting_value : exn := JSONDecodeError "Expecting value".
Definition expecting_name : exn :=
  JSONDecodeError "Expecting property name enclosed in double quotes".
Definition expecting_colon : exn := JSONDecodeError "Expecting ':' delimiter".
Definition expecting_comma : exn := JSONDecodeError "Expecting ',' delimiter".

(** The constants and numbers of [scan_once]. *)
Definition scan_atom (s : string) : result (pyvalue * string) :=
  match strip_prefix "null" s with Some r => Ok (PyNone, r) | None =>
  match strip_prefix "true" s with Some r => Ok (PyBool true, r) | None =>
  match strip_prefix "false" s with Some r => Ok (PyBool false, r) | None =>
  match match_number s with Some vr => Ok vr | None =>
  match strip_prefix "NaN" s with Some r => Ok (PyFloat "NaN", r) | None =>
  match strip_prefix "Infinity" s with
  | Some r => Ok (PyFloat "Infinity", r) | None =>
  match strip_prefix "-Infinity" s with
  | Some r => Ok (PyFloat "-Infinity", r) | None =>
  Raise expecting_value
  end end end end end end end.

(** The loop of [JSONObject]: the input starts just after the opening
    quote of a key; [k] bounds the number of members. *)
Definition object_members (scan_once : string → result (pyvalue * string))
  : nat → string → list (string * pyvalue) → result (pyvalue * string) :=
  fix members k s pairs :=
    match k with
    | O => Raise expecting_value
    | S k' =>
        '(key, s1) ← scanstring s;
        match expect ":" (skip_ws s1) with
        | None => Raise expecting_colon
        | Some s2 =>
            '(value, s3) ← scan_once (skip_ws s2);
            let pairs := pairs ++ [(key, value)] in
            let s4 := skip_ws s3 in
            match expect "}" s4, expect "," s4 with
            | Some rest, _ => Ok (PyDict (dict_of_pairs pairs), rest)
            | None, Some s5 =>
                match expect quote (skip_ws s5) with
                | Some s6 => members k' s6 pairs
                | None => Raise expecting_name
                end
            | None, None => Raise expecting_comma
            end
        end
    end.

(** The loop of [JSONArray]: the input starts at a value; [k] bounds
    the number of elements. *)
Definition array_elements (scan_once : string → result (pyvalue * string))
  : nat → string → list pyvalue → result (pyvalue * string) :=
  fix elements k s values :=
    match k with
    | O => Raise expecting_value
    | S k' =>
        '(value, s1) ← scan_once s;
        let values := values ++ [value] in
        let s2 := skip_ws s1 in
        match expect "]" s2, expect "," s2 with
        | Some rest, _ => Ok (PyList values, rest)
        | None, Some s3 => elements k' (skip_ws s3) values
        | None, None => Raise expecting_comma
        end
    end.

(** [scan_once], with [JSONObject] and [JSONArray].  [depth] bounds the
    nesting; [loads] starts it, and the bound of each loop, above the
    length of the input, which no document can reach. *)
Fixpoint scan_once (depth : nat) (s : string) : result (pyvalue * string) :=
  match depth with
  | O => Raise expecting_value
  | S depth' =>
      match s with
      | EmptyString => Raise expecting_value
      | String c r =>
          if Ascii.eqb c quote then
            '(str, rest) ← scanstring r; Ok (PyStr str, rest)
          else if Ascii.eqb c "{" then
            let r1 := skip_ws r in
            match expect "}" r1, expect quote r1 with
            | Some rest, _ => Ok (PyDict [], rest)
            | None, Some r2 =>
                object_members (scan_once depth') depth' r2 []
            | None, None => Raise expecting_name
            end
          else if Ascii.eqb c "[" then
            let r1 := skip_ws r in
            match expect "]" r1 with
            | Some rest => Ok (PyList [], rest)
            | None => array_elements (scan_once depth') depth' r1 []
            end
          else scan_atom s
      end
  end.

(** [json.loads(s)] for a [str] argument. *)
Definition loads (s : string) : result pyvalue :=
  match strip_prefix (chr 65279) s with
  | Some _ =>
      Raise (JSONDecodeError "Unexpected UTF-8 BOM (decode using utf-8-sig)")
  | None =>
      '(obj, rest) ← scan_once (S (String.length s)) (skip_ws s);
      match skip_ws rest with
      | EmptyString => Ok obj
      | _ => Raise (JSONDecodeError "Extra data")
      end
  end.

End json.

(** ** The [Dataset] class *)

Record Dataset := { _data : list pyvalue; _key : string }.

(** [Dataset(data)]: the key defaults to ["text"]. *)
Definition Dataset_default_key : string := "text".
Definition Dataset__init__ (data : list pyvalue) : Dataset :=
  {| _data := data; _key := Dataset_default_key |}.

(** [l[idx]] on a Python list: a negative index counts from the end. *)
Definition list_getitem {A} (l : list A) (idx : Z) : result A :=
  let n := Z.of_nat (length l) in
  let i := if idx <? 0 then idx + n else idx in
  if (i <? 0) || (n <=? i) then Raise IndexError
  else match l !! Z.to_nat i with
       | Some x => Ok x
       | None => Raise IndexError
       end.

(** [v[k]] for a [str] key [k]: only a dict can be indexed by a string. *)
Definition subscript (v : pyvalue) (k : string) : result pyvalue :=
  match v with
  | PyDict d =>
      match dict_get d k with
      | Some x => Ok x
      | None => Raise (KeyError k)
      end
  | _ => Raise TypeError
  end.

(** [return self._data[idx][self._key]] *)
Definition __getitem__ (self : Dataset) (idx : Z) : result pyvalue :=
  record ← list_getitem (_data self) idx;
  subscript record (_key self).

(** [return len(self._data)] *)
Definition __len__ (self : Dataset) : Z := Z.of_nat (length (_data self)).

(** ** Files

    A path names a regular file, given by its text (already decoded; a
    [str] is kept as its UTF-8 bytes), or nothing.  Directories, access
    rights and undecodable bytes are outside the model. *)

Definition filesystem := string → option string.

Inductive fs_event :=
| Exists (path : string)
| Open (path : string)
| ReadLine (path : string)
| Close (path : string).

(** [Path(path).exists()] *)
Definition exists_ (fs : filesystem) (path : string) : io fs_event bool :=
  tell (Exists path);;
  mret (match fs path with Some _ => true | None => false end).

Definition newline : string := String "010"%char EmptyString.

(** The lines a text file yields when iterated, in universal-newlines
    mode: a line ends after a line feed, a carriage return or the pair of
    them, each read as one line feed; the last line may lack one. *)
Fixpoint lines_from (cur : string) (s : string) : list string :=
  match s with
  | EmptyString => match cur with EmptyString => [] | _ => [cur] end
  | String c r =>
      if Ascii.eqb c "010" then (cur +:+ newline) :: lines_from EmptyString r
      else if Ascii.eqb c "013" then
        match r with
        | String c' r' =>
            if Ascii.eqb c' "010"
            then (cur +:+ newline) :: lines_from EmptyString r'
            else (cur +:+ newline) :: lines_from EmptyString r
        | EmptyString => [cur +:+ newline]
        end
      else lines_from (cur +:+ String c EmptyString) r
  end.

Definition file_lines (text : string) : list string :=
  lines_from EmptyString text.

(** [[json.loads(line) for line in fid]]: a line is read, decoded and
    appended before the next one is read; an exception of the decoder
    leaves the comprehension at once. *)
Fixpoint comprehension (path : string) (lines : list string)
  : io fs_event (list pyvalue) :=
  match lines with
  | [] => mret []
  | line :: rest =>
      tell (ReadLine path);;
      value ← lift (json.loads line);
      values ← comprehension path rest;
      mret (value :: values)
  end.

(** [with open(path, "r") as fid: body]: the file is closed when the body
    is left, also by an exception. *)
Definition with_open {A} (fs : filesystem) (path : string)
    (body : list string → io fs_event A) : io fs_event A :=
  match fs path with
  | Some text =>
      tell (Open path);;
      let '(r, t) := body (file_lines text) in
      (r, t ++ [Close path])
  | None => lift (Raise (FileNotFoundError path))
  end.

(** ** [load_dataset] *)
Definition load_dataset (fs : filesystem) (path : string)
  : io fs_event Dataset :=
  found ← exists_ fs path;
  if negb found then lift (Raise (FileNotFoundError path))
  else
    data ← with_open fs path (fun fid => comprehension path fid);
    mret (Dataset__init__ data).

(** ** Module trees

    The model is a tree of Python objects owned by the caller: a parameter
    array, a module (or any object) with named attributes, or a list.  No
    object is reachable along two paths, so an object mutated in place is
    written back into its owner.  A parameter is trainable unless its
    module has frozen it. *)

Inductive cls :=
| Plain
| LoRALinear (r alpha : Z).

#[local] Unset Elimination Schemes.
Inductive obj :=
| Array (trainable : bool)
| Module (c : cls) (attrs : list (string * obj))
| ModList (items : list obj).
#[local] Set Elimination Schemes.

Definition hasattr (o : obj) (name : string) : bool :=
  match o with
  | Module _ attrs => dict_has attrs name
  | _ => false
  end.

Definition getattr (o : obj) (name : string) : result obj :=
  match o with
  | Module _ attrs =>
      match dict_get attrs name with
      | Some v => Ok v
      | None => Raise (AttributeError name)
      end
  | _ => Raise (AttributeError name)
  end.

Definition setattr (o : obj) (name : string) (v : obj) : result obj :=
  match o with
  | Module c attrs => Ok (Module c (dict_set attrs name v))
  | _ => Raise (AttributeError name)
  end.

(** [for x in o]: the items of a list. *)
Definition iter (o : obj) : result (list obj) :=
  match o with
  | ModList items => Ok items
  | _ => Raise TypeError
  end.

(** Modelled from the spec: [model.freeze()] of the external framework,
    which marks every parameter of the module and of all the modules below
    it as non-trainable. *)
Fixpoint freeze (o : obj) : obj :=
  match o with
  | Array _ => Array false
  | Module c attrs => Module c ((λ '(k, v), (k, freeze v)) <$> attrs)
  | ModList items => ModList (freeze <$> items)
  end.

(** Modelled from the spec: [LoRALinear.from_linear] of the external
    package [mlx_lm], the Adapter Wrapper factory.  The wrapper holds the
    module it is given, as it is, and a fresh trainable low-rank pair; its
    rank and scaling are those it is built with. *)
Definition LoRALinear_from_linear (linear : obj) (r alpha : Z) : obj :=
  Module (LoRALinear r alpha)
         [("linear", linear); ("lora_a", Array true); ("lora_b", Array true)].

(** The paths of the trainable parameters, as [trainable_parameters()]
    flattened by [tree_flatten] names them. *)
Inductive step :=
| Attr (name : string)
| Item (index : nat).

Definition items_paths (paths : obj → list (list step))
  : nat → list obj → list (list step) :=
  fix go (i : nat) (items : list obj) : list (list step) :=
    match items with
    | [] => []
    | x :: items' => (cons (Item i) <$> paths x) ++ go (S i) items'
    end.

Fixpoint trainable_parameters (o : obj) : list (list step) :=
  match o with
  | Array trainable => if trainable then [[]] else []
  | Module _ attrs =>
      '(k, v) ← attrs; cons (Attr k) <$> trainable_parameters v
  | ModList items => items_paths trainable_parameters 0 items
  end.

(** The object at the end of a path. *)
Fixpoint at_path (o : obj) (p : list step) : option obj :=
  match p, o with
  | [], _ => Some o
  | Attr k :: p', Module _ attrs =>
      match dict_get attrs k with Some v => at_path v p' | None => None end
  | Item i :: p', ModList items =>
      match items !! i with Some v => at_path v p' | None => None end
  | _, _ => None
  end.

(** ** [modify_model_with_lora] *)

Definition projections : list string :=
  ["q_proj"; "k_proj"; "v_proj"; "o_proj"; "gate_proj"; "up_proj"; "down_proj"].

(** Where an attribute is replaced: [l.self_attn], [l.block_sparse_moe] or
    an expert [e] of it, for the layer and expert of that index. *)
Inductive site :=
| SelfAttn (layer : nat)
| BlockSparseMoe (layer : nat)
| Expert (layer expert : nat).

#[global] Instance site_eq_dec : EqDecision site.
Proof. solve_decision. Defined.

Inductive lora_event :=
| Froze
| SetAttr (owner : site) (proj : string).

(** [for x in xs: body], the body updating [s]. *)
Fixpoint for_ {E S A} (xs : list A) (body : S → A → io E S) (s : S)
  : io E S :=
  match xs with
  | [] => mret s
  | x :: xs' => s' ← body s x; for_ xs' body s'
  end.

(** [for x in xs: body], the body mutating the item [x] in place; [i] is
    the index of the first item. *)
Fixpoint for_each {E A} (i : nat) (xs : list A) (body : nat → A → io E A)
  : io E (list A) :=
  match xs with
  | [] => mret []
  | x :: xs' =>
      x' ← body i x;
      xs'' ← for_each (S i) xs' body;
      mret (x' :: xs'')
  end.

(** The body the three loops over projection names share:
    [if hasattr(target, proj):
       setattr(target, proj,
               LoRALinear.from_linear(getattr(target, proj), r=64, alpha=128))] *)
Definition replace_if_present (owner : site) (target : obj) (proj : string)
  : io lora_event obj :=
  if hasattr target proj then
    linear ← lift (getattr target proj);
    target' ← lift (setattr target proj (LoRALinear_from_linear linear 64 128));
    tell (SetAttr owner proj);;
    mret target'
  else mret target.

(** The body of [for l in model.model.layers], for the layer [l] of
    index [i]. *)
Definition modify_layer (i : nat) (l : obj) : io lora_event obj :=
  self_attn ← lift (getattr l "self_attn");
  self_attn ← for_ (take 4 projections) (replace_if_present (SelfAttn i)) self_attn;
  l ← lift (setattr l "self_attn" self_attn);
  if hasattr l "block_sparse_moe" then
    moe ← lift (getattr l "block_sparse_moe");
    moe ← for_ (drop 4 projections) (replace_if_present (BlockSparseMoe i)) moe;
    experts ← lift (getattr moe "experts");
    experts ← lift (iter experts);
    experts ← for_each 0%nat experts (fun j e =>
      for_ projections (replace_if_present (Expert i j)) e);
    moe ← lift (setattr moe "experts" (ModList experts));
    lift (setattr l "block_sparse_moe" moe)
  else mret l.

(** The function returns nothing and mutates the model; here it returns
    the model as it leaves it. *)
Definition modify_model_with_lora (model : obj) : io lora_event obj :=
  tell Froze;;
  let model := freeze model in
  inner ← lift (getattr model "model");
  layers ← lift (getattr inner "layers");
  layers ← lift (iter layers);
  layers ← for_each 0%nat layers modify_layer;
  inner ← lift (setattr inner "layers" (ModList layers));
  lift (setattr model "model" inner).

(** ** [train_model] *)

(** The keyword arguments the notebook gives [TrainingArgs]; the fields
    it leaves to the library's defaults are not part of the record. *)
Record TrainingArgs := {
  batch_size : Z;
  iters : Z;
  val_batches : Z;
  steps_per_report : Z;
  steps_per_eval : Z;
  steps_per_save : Z;
  adapter_file : string;
  max_seq_length : Z
}.

(** A floating-point literal [m e x], kept as written. *)
Record float_literal := { mantissa : Z; exponent : Z }.

(** [optim.cosine_decay(init, decay_steps)] and
    [optim.AdamW(learning_rate=...)], as the terms that build them. *)
Inductive schedule :=
| cosine_decay (init : float_literal) (decay_steps : Z).

Inductive optimizer :=
| AdamW (learning_rate : schedule).

(** The keyword arguments of one call of the external [train]. *)
Record train_call (M T : Type) := {
  call_model : M;
  call_tokenizer : T;
  call_args : TrainingArgs;
  call_optimizer : optimizer;
  call_train_dataset : Dataset;
  call_val_dataset : Dataset
}.
Arguments call_model {M T} _.
Arguments call_tokenizer {M T} _.
Arguments call_args {M T} _.
Arguments call_optimizer {M T} _.
Arguments call_train_dataset {M T} _.
Arguments call_val_dataset {M T} _.

Inductive train_event (M T : Type) :=
| Train (call : train_call M T).
Arguments Train {M T} call.

Definition train_model {M T} (model : M) (tokenizer : T)
    (train_dst valid_dst : Dataset) : io (train_event M T) unit :=
  let trainingArgs := {|
    batch_size := 1;
    iters := 5000;
    val_batches := 25;
    steps_per_report := 10;
    steps_per_eval := 200;
    steps_per_save := 200;
    adapter_file := "adapters.npz";
    max_seq_length := 4096
  |} in
  let decay_steps := iters trainingArgs in
  let lr_schedule := cosine_decay {| mantissa := 1; exponent := -5 |} decay_steps in
  let opt := AdamW lr_schedule in
  tell (Train {|
    call_model := model;
    call_tokenizer := tokenizer;
    call_args := trainingArgs;
    call_optimizer := opt;
    call_train_dataset := train_dst;
    call_val_dataset := valid_dst
  |}).

(** ** Vocabulary of the statements *)

(** The exception is a parse error of the decoder. *)
Definition is_JSONDecodeError (e : exn) : Prop := ∃ msg, e = JSONDecodeError msg.

(** The line holds one JSON document. *)
Definition well_formed_line (line : string) : Prop :=
  ∃ value, json.loads line = Ok value.

(** The decoder refuses the line. *)
Definition malformed_line (line : string) : Prop :=
  ∃ e, json.loads line = Raise e.

(** The text field of the line, when the line holds an object with the
    key ["text"]. *)
Definition record_text (line : string) : option pyvalue :=
  match json.loads line with
  | Ok (PyDict d) => dict_get d Dataset_default_key
  | _ => None
  end.

(** A line with nothing before its terminator. *)
Definition blank_line (line : string) : bool := String.eqb line newline.

(** The lines of the file that are not blank. *)
Definition non_empty_lines (text : string) : list string :=
  filter (λ line, blank_line line = false) (file_lines text).

(** A line-delimited input file in the sense of the specification: every
    non-empty line holds one object with the text field. *)
Definition valid_line_delimited (text : string) : bool :=
  forallb (λ line, blank_line line
                   || match record_text line with Some _ => true | None => false end)
          (file_lines text).

(** The file system with one regular file. *)
Definition single_file (path text : string) : filesystem :=
  λ p, if String.eqb p path then Some text else None.

(** The two lines of the end-to-end scenario, and a line feed. *)
Definition quoted (s : string) : string :=
  String json.quote (s +:+ String json.quote EmptyString).
Definition line_a : string := "{" +:+ quoted "text" +:+ ":" +:+ quoted "a" +:+ "}".
Definition line_b : string := "{" +:+ quoted "text" +:+ ":" +:+ quoted "b" +:+ "}".
Definition LF : string := newline.

(** The layers [model.model.layers] iterates over. *)
Definition model_layers (model : obj) : result (list obj) :=
  inner ← getattr model "model";
  layers ← getattr inner "layers";
  iter layers.

Definition layers_path : list step := [Attr "model"; Attr "layers"].

(** The adapter wrapper of the notebook, [r=64] and [alpha=128]. *)
Definition adapter (linear : obj) : obj := LoRALinear_from_linear linear 64 128.

(** The three slices of [projections]. *)
Definition attention_projections : list string := take 4 projections.
Definition feed_forward_projections : list string := drop 4 projections.

(** The names of [names] the object has, in order. *)
Definition present (target : obj) (names : list string) : list string :=
  filter (λ proj, hasattr target proj = true) names.

(** The names replaced at one site, in the order of the log. *)
Definition replaced_at (owner : site) (log : list lora_event) : list string :=
  omap (λ ev, match ev with
              | SetAttr owner' proj =>
                  if decide (owner' = owner) then Some proj else None
              | Froze => None
              end) log.

(** All the replacements of the log. *)
Definition replacements (log : list lora_event) : list (site * string) :=
  omap (λ ev, match ev with
              | SetAttr owner proj => Some (owner, proj)
              | Froze => None
              end) log.

(** What the loops leave behind, as functions of the object they start
    from; [modify_layer_eq] and [modify_model_with_lora_eq] below show
    that the code computes them.  [store] is [setattr] where it cannot
    fail. *)
Definition store (o : obj) (name : string) (v : obj) : obj :=
  match o with
  | Module c attrs => Module c (dict_set attrs name v)
  | _ => o
  end.

Definition wrapped (target : obj) (proj : string) : obj :=
  match getattr target proj with
  | Ok linear => store target proj (adapter linear)
  | Raise _ => target
  end.

Definition adapted (names : list string) (target : obj) : obj :=
  fold_left wrapped names target.

Definition adapted_moe (moe : obj) (experts : list obj) : obj :=
  store (adapted feed_forward_projections moe) "experts"
        (ModList (adapted projections <$> experts)).

Definition adapted_layer (l : obj) : obj :=
  match getattr l "self_attn" with
  | Ok self_attn =>
      let l1 := store l "self_attn" (adapted attention_projections self_attn) in
      match getattr l "block_sparse_moe" with
      | Ok moe =>
          match getattr moe "experts" with
          | Ok (ModList experts) =>
              store l1 "block_sparse_moe" (adapted_moe moe experts)
          | _ => l1
          end
      | Raise _ => l1
      end
  | Raise _ => l
  end.

Definition layer_log (i : nat) (l : obj) : list lora_event :=
  match getattr l "self_attn" with
  | Ok self_attn =>
      (SetAttr (SelfAttn i) <$> present self_attn attention_projections)
      ++ match getattr l "block_sparse_moe" with
         | Ok moe =>
             (SetAttr (BlockSparseMoe i) <$> present moe feed_forward_projections)
             ++ match getattr moe "experts" with
                | Ok (ModList experts) =>
                    mjoin (imap (λ j e, SetAttr (Expert i j)
                                          <$> present e projections) experts)
                | _ => []
                end
         | Raise _ => []
         end
  | Raise _ => []
  end.

(** A layer the loop body runs through without an exception: it has an
    attention block and, if it has a mixture-of-experts block, that block
    has a list of experts. *)
Definition wf_layer (l : obj) : Prop :=
  (∃ self_attn, getattr l "self_attn" = Ok self_attn)
  ∧ (hasattr l "block_sparse_moe" = true →
     ∃ moe experts, getattr l "block_sparse_moe" = Ok moe
                    ∧ getattr moe "experts" = Ok (ModList experts)).

Definition adapted_model (model : obj) : obj :=
  let model := freeze model in
  match getattr model "model" with
  | Ok inner =>
      match getattr inner "layers" with
      | Ok (ModList layers) =>
          store model "model"
                (store inner "layers" (ModList (adapted_layer <$> layers)))
      | _ => model
      end
  | Raise _ => model
  end.

Definition model_log (layers : list obj) : list lora_event :=
  Froze :: mjoin (imap layer_log layers).

(** The layer an event belongs to. *)
Definition site_layer (owner : site) : nat :=
  match owner with
  | SelfAttn i | BlockSparseMoe i | Expert i _ => i
  end.

Definition event_layer (ev : lora_event) : option nat :=
  match ev with
  | Froze => None
  | SetAttr owner _ => Some (site_layer owner)
  end.

(** A layer with the four attention projections and no
    mixture-of-experts block. *)
Definition attention_only_layer (l : obj) : Prop :=
  (∃ self_attn, getattr l "self_attn" = Ok self_attn
                ∧ Forall (λ proj, hasattr self_attn proj = true)
                         attention_projections)
  ∧ hasattr l "block_sparse_moe" = false.

(** Small trees for the instances: a linear projection, an attention
    block with the four projections, one with only two of them, an expert,
    a mixture-of-experts block, and models made of them. *)
Definition linear_module : obj := Module Plain [("weight", Array true)].

Definition full_attention : obj :=
  Module Plain [("q_proj", linear_module); ("k_proj", linear_module);
                ("v_proj", linear_module); ("o_proj", linear_module);
                ("rope", Module Plain [])].

Definition partial_attention : obj :=
  Module Plain [("q_proj", linear_module); ("v_proj", linear_module);
                ("rope", Module Plain [])].

Definition dense_layer (self_attn : obj) : obj :=
  Module Plain [("self_attn", self_attn);
                ("mlp", Module Plain [("down_proj", linear_module)]);
                ("input_layernorm", Module Plain [("weight", Array true)])].

Definition expert_module : obj :=
  Module Plain [("gate_proj", linear_module); ("w2", linear_module);
                ("q_proj", linear_module)].

Definition moe_module : obj :=
  Module Plain [("gate", linear_module); ("up_proj", linear_module);
                ("q_proj", linear_module);
                ("experts", ModList [expert_module; expert_module])].

Definition sparse_layer : obj :=
  Module Plain [("self_attn", full_attention); ("block_sparse_moe", moe_module)].

Definition model_of (layers : list obj) : obj :=
  Module Plain
    [("model", Module Plain [("embed_tokens", Module Plain [("weight", Array true)]);
                             ("layers", ModList layers)]);
     ("lm_head", linear_module)].

(** ** [setup] and the cell that runs the notebook

    [load] is the model and tokenizer loader of the external package
    [mlx_lm]; it is a parameter.  The events of the four steps are gathered
    in one log. *)

Inductive event (T : Type) :=
| LoadModel (path : string)
| FileAccess (e : fs_event)
| Adaptation (e : lora_event)
| Training (e : train_event obj T).
Arguments LoadModel {T} path.
Arguments FileAccess {T} e.
Arguments Adaptation {T} e.
Arguments Training {T} e.

(** A step run inside a larger computation, its events tagged. *)
Definition embed {E E' A} (f : E → E') (m : io E A) : io E' A :=
  (outcome m, f <$> effects m).

Definition train_dataset_path : string := "./data/dorian_training_dataset.jsonl".
Definition val_dataset_path : string := "./data/dorian_tvalid_dataset.jsonl".
Definition model_path : string := "/Users/anima/DorainGray-Phi3-4k-MLX".

Definition setup {T} (load : string → result (obj * T)) (fs : filesystem)
  : io (event T) (obj * T * Dataset * Dataset) :=
  tell (LoadModel model_path);;
  '(model, tokenizer) ← lift (load model_path);
  train_dst ← embed FileAccess (load_dataset fs train_dataset_path);
  valid_dst ← embed FileAccess (load_dataset fs val_dataset_path);
  mret (model, tokenizer, train_dst, valid_dst).

(** [model, tokenizer, train_dst, valid_dst = setup()
     modify_model_with_lora(model)
     train_model(model, tokenizer, train_dst, valid_dst)]:
    the trainer is given the model as the injector leaves it. *)
Definition main {T} (load : string → result (obj * T)) (fs : filesystem)
  : io (event T) unit :=
  '(model, tokenizer, train_dst, valid_dst) ← setup load fs;
  model ← embed Adaptation (modify_model_with_lora model);
  embed Training (train_model model tokenizer train_dst valid_dst).

(** ** More vocabulary of the statements *)

(** The text with every line feed written as carriage return and line
    feed. *)
Fixpoint crlf (text : string) : string :=
  match text with
  | EmptyString => EmptyString
  | String c r =>
      if Ascii.eqb c "010" then String "013" (String "010" (crlf r))
      else String c (crlf r)
  end.

(** No carriage return occurs in the text. *)
Fixpoint no_carriage_return (text : string) : bool :=
  match text with
  | EmptyString => true
  | String c r => negb (Ascii.eqb c "013") && no_carriage_return r
  end.

(** What the injector loops over is a list: the [experts] of a
    mixture-of-experts block, where there is one, and [model.model.layers],
    where there is one. *)
Definition experts_is_list (l : obj) : Prop :=
  ∀ moe experts,
    getattr l "block_sparse_moe" = Ok moe →
    getattr moe "experts" = Ok experts →
    ∃ items, experts = ModList items.

Definition layers_is_list (model : obj) : Prop :=
  ∀ inner layers,
    getattr model "model" = Ok inner →
    getattr inner "layers" = Ok layers →
    ∃ items, layers = ModList items ∧ Forall experts_is_list items.

(** The exceptions of the four accesses the injector does not guard. *)
Definition unguarded_access (e : exn) : Prop :=
  e = AttributeError "model" ∨ e = AttributeError "layers"
  ∨ e = AttributeError "self_attn" ∨ e = AttributeError "experts".

(** The path of a site: from the list of layers, and from the model. *)
Definition site_steps (owner : site) : list step :=
  match owner with
  | SelfAttn i => [Item i; Attr "self_attn"]
  | BlockSparseMoe i => [Item i; Attr "block_sparse_moe"]
  | Expert i j => [Item i; Attr "block_sparse_moe"; Attr "experts"; Item j]
  end.

Definition site_path (owner : site) : list step :=
  layers_path ++ site_steps owner.

(** The names the loop at a site runs over. *)
Definition site_names (owner : site) : list string :=
  match owner with
  | SelfAttn _ => take 4 projections
  | BlockSparseMoe _ => drop 4 projections
  | Expert _ _ => projections
  end.

(** The event is the replacement of a name of its site's loop. *)
Definition replacement (ev : lora_event) : Prop :=
  match ev with
  | Froze => False
  | SetAttr owner proj => proj ∈ site_names owner
  end.

(** The path a file event is about. *)
Definition fs_event_path (e : fs_event) : string :=
  match e with
  | Exists path | Open path | ReadLine path | Close path => path
  end.

(** The event is a call of the trainer. *)
Definition is_training {T} (ev : event T) : Prop :=
  match ev with
  | Training _ => True
  | _ => False
  end.

(** The event is an access to a file other than [path]. *)
Definition touches_other {T} (path : string) (ev : event T) : Prop :=
  match ev with
  | FileAccess e => fs_event_path e ≠ path
  | _ => False
  end.

(** The expert an event belongs to, if it is about an expert. *)
Definition event_expert (ev : lora_event) : option nat :=
  match ev with
  | SetAttr (Expert _ j) _ => Some j
  | _ => None
  end.

(** * Properties *)

(** ** The definitions at work *)

Example loads_record :
  json.loads (line_a +:+ LF) = Ok (PyDict [("text", PyStr "a")]).
Proof. vm_compute. reflexivity. Qed.

Example loads_nested :
  json.loads ("{" +:+ quoted "text" +:+ ": [1, -2.5e3, true, null, {}], "
              +:+ quoted "text" +:+ ": " +:+ quoted "\u00e9\n" +:+ " }")
  = Ok (PyDict [("text", PyStr (json.chr 233 +:+ newline))]).
Proof. vm_compute. reflexivity. Qed.

Example loads_scalars :
  json.loads "[0, -12, 1.5, 1E+5, NaN, -Infinity]"
  = Ok (PyList [PyInt 0; PyInt (-12); PyFloat "1.5"; PyFloat "1E+5";
                PyFloat "NaN"; PyFloat "-Infinity"]).
Proof. vm_compute. reflexivity. Qed.

Example loads_trailing_comma :
  json.loads "[1,]" = Raise json.expecting_value.
Proof. vm_compute. reflexivity. Qed.

Example loads_two_documents :
  json.loads (line_a +:+ line_b) = Raise (JSONDecodeError "Extra data").
Proof. vm_compute. reflexivity. Qed.

Example file_lines_universal_newlines :
  file_lines ("a" +:+ String "013" LF +:+ "b" +:+ String "013" "c" +:+ LF +:+ LF +:+ "d")
  = ["a" +:+ LF; "b" +:+ LF; "c" +:+ LF; LF; "d"].
Proof. vm_compute. reflexivity. Qed.

Example load_dataset_two_lines :
  load_dataset (single_file "train.jsonl" (line_a +:+ LF +:+ line_b +:+ LF))
               "train.jsonl"
  = (Ok (Dataset__init__ [PyDict [("text", PyStr "a")]; PyDict [("text", PyStr "b")]]),
     [Exists "train.jsonl"; Open "train.jsonl"; ReadLine "train.jsonl";
      ReadLine "train.jsonl"; Close "train.jsonl"]).
Proof. vm_compute. reflexivity. Qed.

Example modify_sparse_model :
  effects (modify_model_with_lora (model_of [dense_layer partial_attention; sparse_layer]))
  = [Froze;
     SetAttr (SelfAttn 0) "q_proj"; SetAttr (SelfAttn 0) "v_proj";
     SetAttr (SelfAttn 1) "q_proj"; SetAttr (SelfAttn 1) "k_proj";
     SetAttr (SelfAttn 1) "v_proj"; SetAttr (SelfAttn 1) "o_proj";
     SetAttr (BlockSparseMoe 1) "up_proj";
     SetAttr (Expert 1 0) "q_proj"; SetAttr (Expert 1 0) "gate_proj";
     SetAttr (Expert 1 1) "q_proj"; SetAttr (Expert 1 1) "gate_proj"].
Proof. vm_compute. reflexivity. Qed.

(** A layer without an attention block makes [l.self_attn] raise, after
    the freeze and the replacements of the layers before it. *)
Example modify_layer_without_attention :
  modify_model_with_lora
    (model_of [dense_layer partial_attention; Module Plain [("mlp", linear_module)]])
  = (Raise (AttributeError "self_attn"),
     [Froze; SetAttr (SelfAttn 0) "q_proj"; SetAttr (SelfAttn 0) "v_proj"]).
Proof. vm_compute. reflexivity. Qed.

(** ** Association lists used as dicts *)

Section dict.
Context {V : Type}.
Implicit Types (d : list (string * V)) (k : string) (v : V).

Lemma dict_get_set_eq d k v : dict_get (dict_set d k v) k = Some v.
Proof.
  induction d as [|[k' v'] d IH]; simpl.
  - rewrite String.eqb_refl. reflexivity.
  - destruct (String.eqb k' k) eqn:E; simpl; rewrite E; auto.
Qed.

Lemma dict_get_set_ne d k k' v :
  k ≠ k' → dict_get (dict_set d k v) k' = dict_get d k'.
Proof.
  intros Hne. induction d as [|[k0 v0] d IH]; simpl.
  - destruct (String.eqb_spec k k'); congruence.
  - destruct (String.eqb_spec k0 k) as [->|Hk]; simpl.
    + destruct (String.eqb_spec k k'); congruence.
    + destruct (String.eqb_spec k0 k'); auto.
Qed.

Lemma dict_has_set d k k' v :
  dict_has d k = true → dict_has (dict_set d k v) k' = dict_has d k'.
Proof.
  unfold dict_has. intros Hk.
  destruct (decide (k = k')) as [<-|Hne].
  - rewrite dict_get_set_eq. destruct (dict_get d k); congruence.
  - rewrite dict_get_set_ne by done. reflexivity.
Qed.

Lemma elem_of_dict_set d k v kv :
  kv ∈ dict_set d k v → kv ∈ d ∨ kv = (k, v).
Proof.
  induction d as [|[k0 v0] d IH]; simpl.
  - intros ->%list_elem_of_singleton. by right.
  - destruct (String.eqb_spec k0 k) as [->|Hk].
    + intros [->|?]%elem_of_cons; [by right|left; by right].
    + intros [->|H]%elem_of_cons; [left; by left|].
      destruct (IH H); [left; by right|by right].
Qed.

Lemma dict_set_elem_of d k v :
  dict_has d k = true → (k, v) ∈ dict_set d k v.
Proof.
  unfold dict_has. induction d as [|[k0 v0] d IH]; simpl; [done|].
  destruct (String.eqb_spec k0 k) as [->|Hk]; intros H.
  - by left.
  - right. by apply IH.
Qed.

Lemma dict_get_elem_of d k v : dict_get d k = Some v → (k, v) ∈ d.
Proof.
  induction d as [|[k0 v0] d IH]; simpl; [done|].
  destruct (String.eqb_spec k0 k) as [->|Hk].
  - intros [= ->]. by left.
  - intros H. right. by apply IH.
Qed.
End dict.

(** ** The [Dataset] class *)

Ltac by_comparisons :=
  cbv zeta;
  repeat match goal with
         | |- context [(?a <? ?b)%Z] => destruct (Z.ltb_spec a b)
         | |- context [(?a <=? ?b)%Z] => destruct (Z.leb_spec a b)
         end;
  simpl; try lia; try reflexivity.

Lemma list_getitem_spec {A} (l : list A) (idx : Z) :
  let n := Z.of_nat (length l) in
  (0 ≤ idx < n → list_getitem l idx = from_option Ok (Raise IndexError) (l !! Z.to_nat idx)
                 ∧ is_Some (l !! Z.to_nat idx))
  ∧ (- n ≤ idx < 0 → list_getitem l idx = list_getitem l (idx + n))
  ∧ (n ≤ idx ∨ idx < - n → list_getitem l idx = Raise IndexError).
Proof.
  intros n. unfold list_getitem. fold n. repeat split.
  - by_comparisons.
  - apply lookup_lt_is_Some. lia.
  - intros H. by_comparisons.
  - intros H. by_comparisons.
Qed.

Lemma list_getitem_IndexError {A} (l : list A) (idx : Z) :
  list_getitem l idx = Raise IndexError
  ↔ Z.of_nat (length l) ≤ idx ∨ idx < - Z.of_nat (length l).
Proof.
  unfold list_getitem. by_comparisons; try tauto.
  - split; [lia|done].
  - destruct (lookup_lt_is_Some_2 l (Z.to_nat (idx + Z.of_nat (length l))))
      as [x ->]; [lia|]. split; [discriminate|lia].
  - destruct (lookup_lt_is_Some_2 l (Z.to_nat idx)) as [x ->]; [lia|].
    split; [discriminate|lia].
Qed.

Lemma list_getitem_raises {A} (l : list A) (idx : Z) e :
  list_getitem l idx = Raise e → e = IndexError.
Proof.
  unfold list_getitem. repeat case_match; congruence.
Qed.

Lemma list_getitem_ok {A} (l : list A) (idx : Z) x :
  list_getitem l idx = Ok x →
  - Z.of_nat (length l) ≤ idx < Z.of_nat (length l).
Proof.
  intros H.
  destruct (decide (- Z.of_nat (length l) ≤ idx < Z.of_nat (length l))); [done|].
  assert (list_getitem l idx = Raise IndexError) as E
    by (apply list_getitem_IndexError; lia).
  congruence.
Qed.

Lemma subscript_not_IndexError v k : subscript v k ≠ Raise IndexError.
Proof. destruct v; simpl; try discriminate. destruct (dict_get _ _); discriminate. Qed.

Lemma getitem_in_range (self : Dataset) (idx : Z) record :
  0 ≤ idx < __len__ self →
  _data self !! Z.to_nat idx = Some record →
  __getitem__ self idx = subscript record (_key self).
Proof.
  intros Hi Hr. unfold __getitem__.
  destruct (list_getitem_spec (_data self) idx) as ((-> & _) & _); [done|].
  rewrite Hr. reflexivity.
Qed.

(** A stored value that is not a dict cannot be indexed by the key. *)
Lemma getitem_not_dict (self : Dataset) (idx : Z) record :
  0 ≤ idx < __len__ self →
  _data self !! Z.to_nat idx = Some record →
  (∀ d, record ≠ PyDict d) →
  __getitem__ self idx = Raise TypeError.
Proof.
  intros Hi Hr Hd. rewrite (getitem_in_range _ _ record) by done.
  destruct record; try reflexivity. by destruct (Hd items).
Qed.

(** C3, as the claim states it, fails on the code: a negative index
    counts from the end of the list, so [get(-1)] on a one-record accessor
    is an access that succeeds outside [0 <= i < length]. *)
Lemma C3_negative_index_succeeds :
  let ds := Dataset__init__ [PyDict [("text", PyStr "a")]] in
  -1 < 0 ∧ __len__ ds = 1 ∧ __getitem__ ds (-1) = Ok (PyStr "a")
  ∧ ¬ (∀ i, (__len__ ds ≤ i ∨ i < 0) → __getitem__ ds i = Raise IndexError).
Proof.
  intros ds. split; [lia|]. split; [reflexivity|]. split; [reflexivity|].
  intros H. specialize (H (-1) (or_intror eq_refl)). discriminate H.
Qed.

(** C3, amended: [get(i)] fails with the out-of-range error exactly when
    [i >= length] or [i < -length]; an index [-length <= i < 0] reads the
    record [length + i]; every access that succeeds satisfies
    [-length <= i < length]. *)
Theorem C3_getitem_index_range (self : Dataset) (i : Z) :
  (__getitem__ self i = Raise IndexError ↔ __len__ self ≤ i ∨ i < - __len__ self)
  ∧ (- __len__ self ≤ i < 0 → __getitem__ self i = __getitem__ self (i + __len__ self))
  ∧ (∀ v, __getitem__ self i = Ok v → - __len__ self ≤ i < __len__ self).
Proof.
  unfold __getitem__, __len__. split; [|split].
  - rewrite <- list_getitem_IndexError.
    destruct (list_getitem (_data self) i) as [r|e] eqn:E; simpl.
    + split; [|discriminate]. intros H. by apply subscript_not_IndexError in H.
    + apply list_getitem_raises in E as ->. done.
  - intros H.
    destruct (list_getitem_spec (_data self) i) as (_ & -> & _); done.
  - intros v H. destruct (list_getitem (_data self) i) eqn:E; [|discriminate].
    by apply list_getitem_ok in E.
Qed.

(** C8: for an in-range index [i] whose record is a mapping, [get(i)]
    returns the value stored under the configured key, and fails with
    [KeyError] (the KeyMissing condition) exactly when the record lacks
    the key. *)
Theorem C8_getitem_key (self : Dataset) (i : Z) (d : list (string * pyvalue)) :
  0 ≤ i < __len__ self →
  _data self !! Z.to_nat i = Some (PyDict d) →
  (∀ v, __getitem__ self i = Ok v ↔ dict_get d (_key self) = Some v)
  ∧ (__getitem__ self i = Raise (KeyError (_key self))
     ↔ dict_get d (_key self) = None)
  ∧ (∀ e, __getitem__ self i = Raise e → e = KeyError (_key self)).
Proof.
  intros Hi Hr. rewrite (getitem_in_range _ _ _ Hi Hr). simpl.
  destruct (dict_get d (_key self)) as [x|]; repeat split;
    intros; simplify_eq; done.
Qed.

(** C8 on an accessor of two records, one with the key and one without. *)
Lemma C8_getitem_key_witness :
  let ds := Dataset__init__ [PyDict [("text", PyStr "a")]; PyDict [("id", PyInt 7)]] in
  __getitem__ ds 0 = Ok (PyStr "a") ∧ __getitem__ ds 1 = Raise (KeyError "text").
Proof.
  intros ds. split.
  - apply (C8_getitem_key ds 0 [("text", PyStr "a")]);
      [vm_compute; split; congruence | reflexivity | reflexivity].
  - apply (C8_getitem_key ds 1 [("id", PyInt 7)]);
      [vm_compute; split; congruence | reflexivity | reflexivity].
Defined.

(** ** The bounds of the decoder are never reached

    Every step of the decoder consumes input, so a nesting depth and a
    number of items above the length of the input are never exhausted:
    the result does not depend on them. *)

Lemma skip_ws_length s : (String.length (json.skip_ws s) ≤ String.length s)%nat.
Proof.
  induction s as [|c r IH]; simpl; [done|]. destruct (json.is_ws c); simpl; lia.
Qed.

Lemma expect_length c s r :
  json.expect c s = Some r → String.length s = S (String.length r).
Proof.
  destruct s as [|c' s]; simpl; [done|].
  destruct (Ascii.eqb c' c); [|done]. by intros [= ->].
Qed.

Lemma strip_prefix_length w s r :
  json.strip_prefix w s = Some r →
  String.length s = (String.length w + String.length r)%nat.
Proof.
  revert s. induction w as [|a w IH]; intros s; simpl.
  - by intros [= ->].
  - destruct s as [|b s]; [done|]. destruct (Ascii.eqb a b); [|done].
    intros Hr%IH. simpl. lia.
Qed.

Lemma digits_length s ds r :
  json.digits s = (ds, r) → (String.length r ≤ String.length s)%nat.
Proof.
  revert ds r. induction s as [|c s IH]; intros ds r; simpl.
  - by intros [= _ <-].
  - destruct (json.is_digit c).
    + destruct (json.digits s) as [ds' r'] eqn:E. intros [= _ <-].
      specialize (IH _ _ eq_refl). lia.
    + intros [= _ <-]. simpl. lia.
Qed.

Lemma scanstring_length n s x r :
  (String.length s ≤ n)%nat → json.scanstring s = Ok (x, r) →
  (String.length r < String.length s)%nat.
Proof.
  revert s x r. induction n as [|n IH]; intros s x r Hn H.
  - destruct s; [done|simpl in Hn; lia].
  - destruct s as [|c s]; [done|].
    simpl in H. unfold mbind, result_bind in H.
    repeat case_match; simplify_eq; cbn [String.length] in *; try lia;
      match goal with
      | E : json.scanstring ?s' = Ok _ |- _ =>
          apply IH in E; cbn [String.length] in *; lia
      end.
Qed.

Lemma match_number_length s v r :
  json.match_number s = Some (v, r) → (String.length r < String.length s)%nat.
Proof.
  unfold json.match_number. intros H.
  repeat (case_match; simplify_eq; simpl in * );
    repeat match goal with
           | E : json.expect _ _ = Some _ |- _ => apply expect_length in E
           | E : json.digits _ = _ |- _ => apply digits_length in E
           end; simpl in *; lia.
Qed.

Lemma scan_atom_length s v r :
  json.scan_atom s = Ok (v, r) → (String.length r < String.length s)%nat.
Proof.
  unfold json.scan_atom. intros H.
  repeat case_match; simplify_eq;
    repeat match goal with
           | E : json.strip_prefix _ _ = Some _ |- _ =>
               apply strip_prefix_length in E; simpl in E
           | E : json.match_number _ = Some _ |- _ => apply match_number_length in E
           end; lia.
Qed.

Ltac lengths :=
  repeat match goal with
         | E : json.expect _ _ = Some _ |- _ => apply expect_length in E
         | E : json.scanstring _ = Ok _ |- _ =>
             apply (scanstring_length _ _ _ _ (Nat.le_refl _)) in E
         | |- context [json.skip_ws ?s] =>
             lazymatch goal with
             | _ : (String.length (json.skip_ws s) ≤ String.length s)%nat |- _ => fail
             | _ => pose proof (skip_ws_length s)
             end
         | _ : context [json.skip_ws ?s] |- _ =>
             lazymatch goal with
             | _ : (String.length (json.skip_ws s) ≤ String.length s)%nat |- _ => fail
             | _ => pose proof (skip_ws_length s)
             end
         end.

Section consuming.
Variable scan : string → result (pyvalue * string).
Hypothesis scan_length :
  ∀ s v r, scan s = Ok (v, r) → (String.length r < String.length s)%nat.

Lemma object_members_length k s pairs v r :
  json.object_members scan k s pairs = Ok (v, r) →
  (String.length r < String.length s)%nat.
Proof.
  revert s pairs. induction k as [|k IH]; intros s pairs H; [done|].
  simpl in H. unfold mbind, result_bind in H.
  repeat case_match; simplify_eq;
    repeat match goal with
           | E : scan _ = Ok _ |- _ => apply scan_length in E
           | E : json.object_members scan k _ _ = Ok _ |- _ => apply IH in E
           end; lengths; lia.
Qed.

Lemma array_elements_length k s values v r :
  json.array_elements scan k s values = Ok (v, r) →
  (String.length r < String.length s)%nat.
Proof.
  revert s values. induction k as [|k IH]; intros s values H; [done|].
  simpl in H. unfold mbind, result_bind in H.
  repeat case_match; simplify_eq;
    repeat match goal with
           | E : scan _ = Ok _ |- _ => apply scan_length in E
           | E : json.array_elements scan k _ _ = Ok _ |- _ => apply IH in E
           end; lengths; lia.
Qed.
End consuming.

Lemma scan_once_length depth s v r :
  json.scan_once depth s = Ok (v, r) → (String.length r < String.length s)%nat.
Proof.
  revert s v r. induction depth as [|depth IH]; intros s v r H; [done|].
  simpl in H. destruct s as [|c s]; [done|]. unfold mbind, result_bind in H.
  repeat case_match; simplify_eq;
    repeat match goal with
           | E : json.object_members _ _ _ _ = Ok _ |- _ =>
               apply (object_members_length _ IH) in E
           | E : json.array_elements _ _ _ _ = Ok _ |- _ =>
               apply (array_elements_length _ IH) in E
           | E : json.scan_atom _ = Ok _ |- _ => apply scan_atom_length in E
           end; lengths; cbn [String.length] in *; lia.
Qed.

Section agreeing.
Variables scan1 scan2 : string → result (pyvalue * string).
Variable n : nat.
Hypothesis scan_agree : ∀ s, (String.length s < n)%nat → scan1 s = scan2 s.
Hypothesis scan_length :
  ∀ s v r, scan1 s = Ok (v, r) → (String.length r < String.length s)%nat.

Lemma object_members_agree k1 k2 s pairs :
  (String.length s < n)%nat →
  (String.length s < k1)%nat → (String.length s < k2)%nat →
  json.object_members scan1 k1 s pairs = json.object_members scan2 k2 s pairs.
Proof.
  revert k2 s pairs. induction k1 as [|k1 IH]; intros k2 s pairs Hn H1 H2; [lia|].
  destruct k2 as [|k2]; [lia|]. simpl. unfold mbind, result_bind.
  destruct (json.scanstring s) as [[key s1]|] eqn:Ekey; [|done].
  destruct (json.expect ":" (json.skip_ws s1)) as [s2|] eqn:Ecolon; [|done].
  lengths. rewrite <- scan_agree by lia.
  destruct (scan1 (json.skip_ws s2)) as [[value s3]|] eqn:Evalue; [|done].
  apply scan_length in Evalue.
  destruct (json.expect "}" (json.skip_ws s3)); [done|].
  destruct (json.expect "," (json.skip_ws s3)) as [s5|] eqn:Ecomma; [|done].
  destruct (json.expect json.quote (json.skip_ws s5)) as [s6|] eqn:Equote; [|done].
  lengths. apply IH; lia.
Qed.

Lemma array_elements_agree k1 k2 s values :
  (String.length s < n)%nat →
  (String.length s < k1)%nat → (String.length s < k2)%nat →
  json.array_elements scan1 k1 s values = json.array_elements scan2 k2 s values.
Proof.
  revert k2 s values. induction k1 as [|k1 IH]; intros k2 s values Hn H1 H2; [lia|].
  destruct k2 as [|k2]; [lia|]. simpl. unfold mbind, result_bind.
  rewrite <- scan_agree by lia.
  destruct (scan1 s) as [[value s1]|] eqn:Evalue; [|done].
  apply scan_length in Evalue.
  destruct (json.expect "]" (json.skip_ws s1)); [done|].
  destruct (json.expect "," (json.skip_ws s1)) as [s3|] eqn:Ecomma; [|done].
  lengths. apply IH; lia.
Qed.
End agreeing.

Lemma scan_once_agree d1 d2 s :
  (String.length s < d1)%nat → (String.length s < d2)%nat →
  json.scan_once d1 s = json.scan_once d2 s.
Proof.
  revert d2 s. induction d1 as [|d1 IH]; intros d2 s H1 H2; [lia|].
  destruct d2 as [|d2]; [lia|]. simpl.
  destruct s as [|c s]; [done|]. cbn [String.length] in *.
  destruct (Ascii.eqb c json.quote); [done|].
  destruct (Ascii.eqb c "{").
  - destruct (json.expect "}" (json.skip_ws s)); [done|].
    destruct (json.expect json.quote (json.skip_ws s)) as [s2|] eqn:E; [|done].
    lengths.
    apply (object_members_agree _ _ (Nat.min d1 d2)); try lia.
    + intros s' Hs'. apply IH; lia.
    + apply scan_once_length.
  - destruct (Ascii.eqb c "["); [|done].
    destruct (json.expect "]" (json.skip_ws s)); [done|].
    lengths.
    apply (array_elements_agree _ _ (Nat.min d1 d2)); try lia.
    + intros s' Hs'. apply IH; lia.
    + apply scan_once_length.
Qed.

(** The depth [loads] starts with is enough for every input: a larger one
    gives the same result. *)
Theorem loads_depth_irrelevant s depth :
  (String.length s < depth)%nat →
  json.scan_once depth (json.skip_ws s)
  = json.scan_once (S (String.length s)) (json.skip_ws s).
Proof.
  intros Hd. pose proof (skip_ws_length s). apply scan_once_agree; lia.
Qed.

(** ** The decoder raises nothing but [JSONDecodeError] *)

Lemma scanstring_raises n s e :
  (String.length s ≤ n)%nat → json.scanstring s = Raise e → is_JSONDecodeError e.
Proof.
  revert s e. induction n as [|n IH]; intros s e Hn H.
  - destruct s; [|simpl in Hn; lia]. injection H as <-. by eexists.
  - destruct s as [|c r]; [injection H as <-; by eexists|].
    simpl in H. unfold mbind, result_bind in H.
    repeat case_match; simplify_eq;
      try (by eexists);
      try (eapply IH; [|eassumption]; simpl in *; lia).
Qed.

Lemma scan_atom_raises s e :
  json.scan_atom s = Raise e → is_JSONDecodeError e.
Proof.
  unfold json.scan_atom. intros H. repeat case_match; simplify_eq. by eexists.
Qed.

Section loops.
Variable scan : string → result (pyvalue * string).
Hypothesis scan_raises : ∀ s e, scan s = Raise e → is_JSONDecodeError e.

Lemma object_members_raises k s pairs e :
  json.object_members scan k s pairs = Raise e → is_JSONDecodeError e.
Proof.
  revert s pairs. induction k as [|k IH]; intros s pairs H; simpl in H.
  - injection H as <-. by eexists.
  - unfold mbind, result_bind in H.
    repeat case_match; simplify_eq;
      try (by eexists); eauto using scanstring_raises.
Qed.

Lemma array_elements_raises k s values e :
  json.array_elements scan k s values = Raise e → is_JSONDecodeError e.
Proof.
  revert s values. induction k as [|k IH]; intros s values H; simpl in H.
  - injection H as <-. by eexists.
  - unfold mbind, result_bind in H.
    repeat case_match; simplify_eq; try (by eexists); eauto.
Qed.
End loops.

Lemma scan_once_raises depth s e :
  json.scan_once depth s = Raise e → is_JSONDecodeError e.
Proof.
  revert s e. induction depth as [|depth IH]; intros s e H; simpl in H.
  - injection H as <-. by eexists.
  - unfold mbind, result_bind in H.
    repeat case_match; simplify_eq; try (by eexists);
      eauto using scanstring_raises, scan_atom_raises,
                  object_members_raises, array_elements_raises.
Qed.

Lemma loads_raises s e : json.loads s = Raise e → is_JSONDecodeError e.
Proof.
  unfold json.loads, mbind, result_bind. intros H.
  repeat case_match; simplify_eq; try (by eexists);
    eauto using scan_once_raises.
Qed.

(** A blank line is no JSON document. *)
Lemma loads_blank_line : json.loads newline = Raise json.expecting_value.
Proof. reflexivity. Qed.

(** ** [load_dataset] *)

Lemma comprehension_ok path lines values :
  Forall2 (λ line value, json.loads line = Ok value) lines values →
  comprehension path lines = (Ok values, replicate (length lines) (ReadLine path)).
Proof.
  induction 1 as [|line value lines values Hl _ IH]; [reflexivity|].
  simpl. unfold mbind, io_bind, mret, io_ret, tell, lift. rewrite Hl, IH.
  simpl. by rewrite app_nil_r.
Qed.

Lemma comprehension_raise path good bad rest e :
  Forall well_formed_line good →
  json.loads bad = Raise e →
  comprehension path (good ++ bad :: rest)
  = (Raise e, replicate (S (length good)) (ReadLine path)).
Proof.
  intros Hgood Hbad. induction Hgood as [|line good [value Hl] _ IH]; simpl.
  - unfold mbind, io_bind, tell, lift. rewrite Hbad. reflexivity.
  - unfold mbind, io_bind, tell, lift in *. rewrite Hl, IH. reflexivity.
Qed.

(** Every line is well formed, or there is a first malformed one. *)
Lemma first_malformed_line lines :
  Forall well_formed_line lines
  ∨ ∃ good bad rest, lines = good ++ bad :: rest
                     ∧ Forall well_formed_line good ∧ malformed_line bad.
Proof.
  induction lines as [|line lines IH]; [by left|].
  destruct (json.loads line) as [value|e] eqn:E.
  - destruct IH as [IH|(good & bad & rest & -> & Hg & Hb)].
    + left. constructor; [by exists value|done].
    + right. exists (line :: good), bad, rest.
      split; [done|]. split; [|done]. constructor; [by exists value|done].
  - right. exists [], line, lines. split; [done|]. split; [constructor|by exists e].
Qed.

Lemma well_formed_not_malformed line :
  well_formed_line line → malformed_line line → False.
Proof. intros [v Hv] [e He]. congruence. Qed.

Lemma load_dataset_file fs path text :
  fs path = Some text →
  load_dataset fs path
  = (Dataset__init__ <$> outcome (comprehension path (file_lines text)),
     [Exists path; Open path]
       ++ effects (comprehension path (file_lines text)) ++ [Close path]).
Proof.
  intros Hf. unfold load_dataset, exists_, with_open, mbind, io_bind, tell, lift.
  rewrite Hf. simpl.
  destruct (comprehension path (file_lines text)) as [[values|e] t]; simpl;
    by rewrite ?app_nil_r.
Qed.

(** C6: for a path that resolves to nothing, [load_dataset] raises
    [FileNotFoundError] at once; the existence test is the only access to
    the file system: the file is not opened, no line is read and no record
    is produced. *)
Theorem C6_missing_path (fs : filesystem) (path : string) :
  fs path = None →
  load_dataset fs path = (Raise (FileNotFoundError path), [Exists path]).
Proof.
  intros Hf. unfold load_dataset, exists_, mbind, io_bind, tell, lift.
  rewrite Hf. reflexivity.
Qed.

(** C6 on an empty file system. *)
Lemma C6_missing_path_witness :
  load_dataset (λ _, None) "./data/train.jsonl"
  = (Raise (FileNotFoundError "./data/train.jsonl"), [Exists "./data/train.jsonl"]).
Proof. apply (C6_missing_path (λ _, None) "./data/train.jsonl"). reflexivity. Defined.

Lemma load_dataset_malformed fs path text good bad rest e :
  fs path = Some text →
  file_lines text = good ++ bad :: rest →
  Forall well_formed_line good →
  json.loads bad = Raise e →
  load_dataset fs path
  = (Raise e,
     [Exists path; Open path]
       ++ replicate (S (length good)) (ReadLine path) ++ [Close path]).
Proof.
  intros Hf Hsplit Hgood He.
  rewrite (load_dataset_file _ _ _ Hf), Hsplit.
  rewrite (comprehension_raise path good bad rest e Hgood He). reflexivity.
Qed.

Lemma load_dataset_well_formed fs path text values :
  fs path = Some text →
  Forall2 (λ line value, json.loads line = Ok value) (file_lines text) values →
  load_dataset fs path
  = (Ok (Dataset__init__ values),
     [Exists path; Open path]
       ++ replicate (length values) (ReadLine path) ++ [Close path]).
Proof.
  intros Hf Hvalues.
  rewrite (load_dataset_file _ _ _ Hf), (comprehension_ok _ _ _ Hvalues).
  rewrite (Forall2_length _ _ _ Hvalues). reflexivity.
Qed.

Lemma well_formed_lines_values lines :
  Forall well_formed_line lines →
  ∃ values, Forall2 (λ line value, json.loads line = Ok value) lines values.
Proof.
  induction 1 as [|line lines [value Hl] _ [values IH]].
  - by exists [].
  - exists (value :: values). by constructor.
Qed.

(** C7: when the file exists and one of its lines is malformed, the load
    fails with the decoder's own [JSONDecodeError] for the first such line,
    which is the last line read; the file is closed and no [Dataset] is
    returned, whatever the earlier lines held. *)
Theorem C7_malformed_line (fs : filesystem) (path text : string) :
  fs path = Some text →
  (∃ line, line ∈ file_lines text ∧ malformed_line line) →
  ∃ good bad rest e,
    file_lines text = good ++ bad :: rest
    ∧ Forall well_formed_line good
    ∧ json.loads bad = Raise e
    ∧ is_JSONDecodeError e
    ∧ load_dataset fs path
      = (Raise e,
         [Exists path; Open path]
           ++ replicate (S (length good)) (ReadLine path) ++ [Close path])
    ∧ ∀ ds, outcome (load_dataset fs path) ≠ Ok ds.
Proof.
  intros Hf (line & Hin & Hbad).
  destruct (first_malformed_line (file_lines text))
    as [Hall|(good & bad & rest & Hsplit & Hgood & [e He])].
  - exfalso. rewrite Forall_forall in Hall.
    eauto using well_formed_not_malformed.
  - exists good, bad, rest, e.
    pose proof (load_dataset_malformed _ _ _ _ _ _ _ Hf Hsplit Hgood He) as Hload.
    repeat split; eauto using loads_raises.
    intros ds. rewrite Hload. discriminate.
Qed.

(** C7 on a file of three lines whose second line is cut short. *)
Lemma C7_malformed_line_witness :
  let text := line_a +:+ LF +:+ "{" +:+ quoted "text" +:+ ": " +:+ LF +:+ line_b +:+ LF in
  ∃ good bad rest e,
    file_lines text = good ++ bad :: rest
    ∧ Forall well_formed_line good
    ∧ json.loads bad = Raise e
    ∧ is_JSONDecodeError e
    ∧ load_dataset (single_file "train.jsonl" text) "train.jsonl"
      = (Raise e,
         [Exists "train.jsonl"; Open "train.jsonl"]
           ++ replicate (S (length good)) (ReadLine "train.jsonl")
           ++ [Close "train.jsonl"])
    ∧ ∀ ds, outcome (load_dataset (single_file "train.jsonl" text) "train.jsonl")
            ≠ Ok ds.
Proof.
  intros text.
  apply (C7_malformed_line (single_file "train.jsonl" text) "train.jsonl" text).
  - reflexivity.
  - exists ("{" +:+ quoted "text" +:+ ": " +:+ LF). split.
    + apply (list_elem_of_lookup_2 _ 1%nat). vm_compute. reflexivity.
    + exists json.expecting_value. vm_compute. reflexivity.
Defined.

(** C10: when the file exists and every line is a JSON document, the load
    succeeds and the accessor holds the decoded values, one per line and
    in order, whatever they are; a value without the key, or one that is
    not an object, makes only the later [get(i)] fail. *)
Theorem C10_no_schema_validation (fs : filesystem) (path text : string) :
  fs path = Some text →
  Forall well_formed_line (file_lines text) →
  ∃ values,
    Forall2 (λ line value, json.loads line = Ok value) (file_lines text) values
    ∧ load_dataset fs path
      = (Ok (Dataset__init__ values),
         [Exists path; Open path]
           ++ replicate (length values) (ReadLine path) ++ [Close path])
    ∧ ∀ i value,
        0 ≤ i → values !! Z.to_nat i = Some value →
        (∀ d, value = PyDict d → dict_get d "text" = None →
              __getitem__ (Dataset__init__ values) i = Raise (KeyError "text"))
        ∧ ((∀ d, value ≠ PyDict d) →
              __getitem__ (Dataset__init__ values) i = Raise TypeError).
Proof.
  intros Hf Hall.
  destruct (well_formed_lines_values _ Hall) as [values Hvalues].
  exists values. split; [done|]. split.
  - by apply (load_dataset_well_formed _ _ text).
  - intros i value Hi Hv.
    assert (0 ≤ i < __len__ (Dataset__init__ values)) as Hrange.
    { apply lookup_lt_Some in Hv. unfold __len__. simpl. lia. }
    split.
    + intros d -> Hd.
      rewrite (getitem_in_range _ _ (PyDict d) Hrange Hv). simpl.
      unfold Dataset_default_key. by rewrite Hd.
    + intros Hd. by apply (getitem_not_dict _ _ value).
Qed.

(** C10 on a file whose lines hold a list, an object without the key and
    an object with it. *)
Lemma C10_no_schema_validation_witness :
  let text := "[1, 2]" +:+ LF +:+ "{" +:+ quoted "id" +:+ ": 7}" +:+ LF +:+ line_a +:+ LF in
  let values := [PyList [PyInt 1; PyInt 2]; PyDict [("id", PyInt 7)];
                 PyDict [("text", PyStr "a")]] in
  outcome (load_dataset (single_file "train.jsonl" text) "train.jsonl")
  = Ok (Dataset__init__ values)
  ∧ __getitem__ (Dataset__init__ values) 0 = Raise TypeError
  ∧ __getitem__ (Dataset__init__ values) 1 = Raise (KeyError "text")
  ∧ __getitem__ (Dataset__init__ values) 2 = Ok (PyStr "a").
Proof.
  intros text values.
  destruct (C10_no_schema_validation (single_file "train.jsonl" text)
              "train.jsonl" text) as (values' & Hvalues & Hload & Hget).
  - reflexivity.
  - assert (file_lines text
            = ["[1, 2]" +:+ LF; "{" +:+ quoted "id" +:+ ": 7}" +:+ LF; line_a +:+ LF]) as ->
      by (vm_compute; reflexivity).
    repeat apply Forall_cons_2; [| | |apply Forall_nil_2].
    + exists (PyList [PyInt 1; PyInt 2]). vm_compute. reflexivity.
    + exists (PyDict [("id", PyInt 7)]). vm_compute. reflexivity.
    + exists (PyDict [("text", PyStr "a")]). vm_compute. reflexivity.
  - assert (values' = values) as ->.
    { assert (file_lines text
              = ["[1, 2]" +:+ LF; "{" +:+ quoted "id" +:+ ": 7}" +:+ LF; line_a +:+ LF]) as Hlines
        by (vm_compute; reflexivity).
      rewrite Hlines in Hvalues.
      repeat match goal with
             | H : Forall2 _ (_ :: _) _ |- _ =>
                 apply Forall2_cons_inv_l in H as (? & ? & ? & ? & ->)
             | H : Forall2 _ [] _ |- _ => apply Forall2_nil_inv_l in H as ->
             | H : json.loads _ = Ok _ |- _ => vm_compute in H; injection H as <-
             end.
      reflexivity. }
    split; [rewrite Hload; reflexivity|]. split; [|split].
    + apply (Hget 0 (PyList [PyInt 1; PyInt 2])); [lia|reflexivity|discriminate].
    + destruct (Hget 1 (PyDict [("id", PyInt 7)])) as [Hkey _]; [lia|reflexivity|].
      apply (Hkey [("id", PyInt 7)]); reflexivity.
    + reflexivity.
Defined.

(** C2, as the claim states it, fails on the code: the loader decodes
    every line, blank ones too.  The file below is line-delimited JSON with
    two non-empty lines, each an object with the text field, and a blank
    line between them; the load is refused with a parse error at the blank
    line instead of returning an accessor of length 2. *)
Lemma C2_blank_line_refused :
  let text := line_a +:+ LF +:+ LF +:+ line_b +:+ LF in
  valid_line_delimited text = true
  ∧ length (non_empty_lines text) = 2%nat
  ∧ load_dataset (single_file "train.jsonl" text) "train.jsonl"
    = (Raise (JSONDecodeError "Expecting value"),
       [Exists "train.jsonl"; Open "train.jsonl"; ReadLine "train.jsonl";
        ReadLine "train.jsonl"; Close "train.jsonl"])
  ∧ ¬ ∃ ds, outcome (load_dataset (single_file "train.jsonl" text) "train.jsonl")
            = Ok ds ∧ __len__ ds = Z.of_nat (length (non_empty_lines text)).
Proof.
  intros text.
  assert (load_dataset (single_file "train.jsonl" text) "train.jsonl"
          = (Raise (JSONDecodeError "Expecting value"),
             [Exists "train.jsonl"; Open "train.jsonl"; ReadLine "train.jsonl";
              ReadLine "train.jsonl"; Close "train.jsonl"])) as Hload
    by (vm_compute; reflexivity).
  split; [vm_compute; reflexivity|]. split; [vm_compute; reflexivity|].
  split; [exact Hload|].
  intros (ds & H & _). rewrite Hload in H. discriminate H.
Qed.

Lemma record_text_loads line v :
  record_text line = Some v →
  ∃ d, json.loads line = Ok (PyDict d) ∧ dict_get d "text" = Some v.
Proof.
  unfold record_text. intros H. repeat case_match; simplify_eq. eauto.
Qed.

Lemma record_text_not_blank line :
  is_Some (record_text line) → blank_line line = false.
Proof.
  intros [v Hv]. unfold blank_line.
  destruct (String.eqb_spec line newline) as [->|]; [|done].
  vm_compute in Hv. discriminate Hv.
Qed.

Lemma records_not_blank lines :
  Forall (λ line, is_Some (record_text line)) lines →
  filter (λ line, blank_line line = false) lines = lines.
Proof.
  induction 1 as [|line lines Hl _ IH]; [done|].
  rewrite filter_cons_True by by apply record_text_not_blank. by rewrite IH.
Qed.

(** C2, amended: when every line of the file (there is then no blank
    one) holds a JSON object with the text field, the load returns an
    accessor whose length is the number of lines, all of them non-empty,
    and [get(i)] is the text field of the record of line [i]; the file of
    the two lines [{"text":"a"}] and [{"text":"b"}] gives length 2,
    [get(0) == "a"] and [get(1) == "b"], with or without a final line
    feed; a file with a blank line is refused with a parse error. *)
Theorem C2_load_dataset_records :
  (∀ (fs : filesystem) (path text : string),
      fs path = Some text →
      Forall (λ line, is_Some (record_text line)) (file_lines text) →
      ∃ ds,
        outcome (load_dataset fs path) = Ok ds
        ∧ non_empty_lines text = file_lines text
        ∧ __len__ ds = Z.of_nat (length (non_empty_lines text))
        ∧ ∀ i line,
            0 ≤ i < __len__ ds → file_lines text !! Z.to_nat i = Some line →
            ∃ v, record_text line = Some v ∧ __getitem__ ds i = Ok v)
  ∧ (∀ text, text = line_a +:+ LF +:+ line_b +:+ LF ∨ text = line_a +:+ LF +:+ line_b →
      ∃ ds,
        outcome (load_dataset (single_file "train.jsonl" text) "train.jsonl") = Ok ds
        ∧ __len__ ds = 2
        ∧ __getitem__ ds 0 = Ok (PyStr "a")
        ∧ __getitem__ ds 1 = Ok (PyStr "b"))
  ∧ (∀ (fs : filesystem) (path text : string),
      fs path = Some text →
      newline ∈ file_lines text →
      ∃ e, is_JSONDecodeError e ∧ outcome (load_dataset fs path) = Raise e).
Proof.
  split; [|split].
  - intros fs path text Hf Hall.
    assert (Forall well_formed_line (file_lines text)) as Hwf.
    { eapply Forall_impl; [exact Hall|]. intros line [v Hv].
      apply record_text_loads in Hv as (d & Hd & _). by exists (PyDict d). }
    destruct (well_formed_lines_values _ Hwf) as [values Hvalues].
    exists (Dataset__init__ values).
    assert (non_empty_lines text = file_lines text) as Hne
      by by apply records_not_blank.
    split; [by rewrite (load_dataset_well_formed _ _ _ _ Hf Hvalues)|].
    split; [done|]. split.
    + rewrite Hne. unfold __len__. simpl. by rewrite (Forall2_length _ _ _ Hvalues).
    + intros i line Hi Hline.
      destruct (Forall2_lookup_l _ _ _ _ _ Hvalues Hline) as (value & Hvalue & Hloads).
      rewrite Forall_forall in Hall.
      destruct (Hall line) as [v Hv]; [by eapply list_elem_of_lookup_2|].
      exists v. split; [done|].
      rewrite (getitem_in_range _ _ value Hi Hvalue).
      apply record_text_loads in Hv as (d & Hd & Hget).
      rewrite Hd in Hloads. injection Hloads as <-. simpl.
      unfold Dataset_default_key. by rewrite Hget.
  - intros text [-> | ->];
      exists (Dataset__init__ [PyDict [("text", PyStr "a")]; PyDict [("text", PyStr "b")]]);
      (split; [vm_compute; reflexivity|]); (split; [reflexivity|]);
      split; reflexivity.
  - intros fs path text Hf Hblank.
    destruct (first_malformed_line (file_lines text))
      as [Hall|(good & bad & rest & Hsplit & Hgood & [e He])].
    + exfalso. rewrite Forall_forall in Hall.
      destruct (Hall _ Hblank) as [v Hv]. rewrite loads_blank_line in Hv.
      discriminate Hv.
    + exists e. split; [by eapply loads_raises|].
      by rewrite (load_dataset_malformed _ _ _ _ _ _ _ Hf Hsplit Hgood He).
Qed.

(** C2 on a file of three records, the last one without a final line feed. *)
Lemma C2_load_dataset_records_witness :
  let text := line_a +:+ LF +:+ line_b +:+ LF +:+ "{" +:+ quoted "text" +:+ ": [1], " +:+ quoted "id" +:+ ": 3}" in
  ∃ ds,
    outcome (load_dataset (single_file "valid.jsonl" text) "valid.jsonl") = Ok ds
    ∧ non_empty_lines text = file_lines text
    ∧ __len__ ds = Z.of_nat (length (non_empty_lines text))
    ∧ ∀ i line,
        0 ≤ i < __len__ ds → file_lines text !! Z.to_nat i = Some line →
        ∃ v, record_text line = Some v ∧ __getitem__ ds i = Ok v.
Proof.
  intros text.
  apply (proj1 C2_load_dataset_records (single_file "valid.jsonl" text)
           "valid.jsonl" text).
  - reflexivity.
  - assert (file_lines text
            = [line_a +:+ LF; line_b +:+ LF; "{" +:+ quoted "text" +:+ ": [1], " +:+ quoted "id" +:+ ": 3}"]) as ->
      by (vm_compute; reflexivity).
    repeat apply Forall_cons_2; [| | |apply Forall_nil_2].
    + exists (PyStr "a"). vm_compute. reflexivity.
    + exists (PyStr "b"). vm_compute. reflexivity.
    + exists (PyList [PyInt 1]). vm_compute. reflexivity.
Defined.

(** ** [train_model] *)

(** C9: every invocation makes exactly one call of the external trainer,
    with the configuration of the eight literals, an [AdamW] optimizer
    bound to the cosine-decay schedule built from the initial rate and the
    iteration count of that configuration (5000), and the model, the
    tokenizer and the two accessors it was given. *)
Theorem C9_train_model {M T : Type} (model : M) (tokenizer : T)
    (train_dst valid_dst : Dataset) :
  ∃ call rate,
    train_model model tokenizer train_dst valid_dst = (Ok tt, [Train call])
    ∧ call_args call
      = {| batch_size := 1; iters := 5000; val_batches := 25;
           steps_per_report := 10; steps_per_eval := 200;
           steps_per_save := 200; adapter_file := "adapters.npz";
           max_seq_length := 4096 |}
    ∧ call_optimizer call = AdamW (cosine_decay rate (iters (call_args call)))
    ∧ iters (call_args call) = 5000
    ∧ call_model call = model
    ∧ call_tokenizer call = tokenizer
    ∧ call_train_dataset call = train_dst
    ∧ call_val_dataset call = valid_dst.
Proof.
  eexists _, _. split; [reflexivity|]. simpl. repeat split; reflexivity.
Qed.

(** ** Module trees *)

Lemma obj_ind (P : obj → Prop) :
  (∀ trainable, P (Array trainable)) →
  (∀ c attrs, Forall (λ kv, P kv.2) attrs → P (Module c attrs)) →
  (∀ items, Forall P items → P (ModList items)) →
  ∀ o, P o.
Proof.
  intros HA HM HL. fix IH 1. intros [t|c attrs|items].
  - apply HA.
  - apply HM. induction attrs as [|[k v] attrs IHattrs]; constructor; [apply IH|done].
  - apply HL. induction items as [|x items IHitems]; constructor; [apply IH|done].
Qed.

Lemma hasattr_getattr o name :
  hasattr o name = true ↔ ∃ v, getattr o name = Ok v.
Proof.
  destruct o as [t|c attrs|items]; simpl;
    [split; [done|by intros [v Hv]] | | split; [done|by intros [v Hv]]].
  unfold dict_has. destruct (dict_get attrs name) as [x|].
  - split; [by exists x|done].
  - split; [done|by intros [v Hv]].
Qed.

Lemma hasattr_false_getattr o name :
  hasattr o name = false ↔ getattr o name = Raise (AttributeError name).
Proof.
  destruct o as [t|c attrs|items]; simpl; try done.
  unfold dict_has. destruct (dict_get attrs name); split; congruence.
Qed.

Lemma getattr_is_module o name v :
  getattr o name = Ok v → ∃ c attrs, o = Module c attrs ∧ dict_get attrs name = Some v.
Proof. destruct o; simpl; repeat case_match; intros; simplify_eq; eauto. Qed.

Lemma setattr_store o name v x :
  getattr o name = Ok x → setattr o name v = Ok (store o name v).
Proof. intros (c & attrs & -> & _)%getattr_is_module. reflexivity. Qed.

Lemma getattr_store_eq o name v x :
  getattr o name = Ok x → getattr (store o name v) name = Ok v.
Proof.
  intros (c & attrs & -> & _)%getattr_is_module. simpl.
  by rewrite dict_get_set_eq.
Qed.

Lemma getattr_store_ne o name name' v :
  name ≠ name' → getattr (store o name v) name' = getattr o name'.
Proof.
  intros Hne. destruct o as [t|c attrs|items]; simpl; try done.
  by rewrite dict_get_set_ne.
Qed.

Lemma hasattr_store o name name' v :
  hasattr o name = true → hasattr (store o name v) name' = hasattr o name'.
Proof.
  destruct o as [t|c attrs|items]; simpl; try done. apply dict_has_set.
Qed.

(** *** [freeze] *)

Lemma dict_get_fmap {V W} (f : V → W) (d : list (string * V)) k :
  dict_get ((λ '(k', v), (k', f v)) <$> d) k = f <$> dict_get d k.
Proof.
  induction d as [|[k' v] d IH]; simpl; [done|].
  destruct (String.eqb k' k); [done|apply IH].
Qed.

Lemma getattr_freeze o name : getattr (freeze o) name = freeze <$> getattr o name.
Proof.
  destruct o as [t|c attrs|items]; simpl; try done.
  rewrite dict_get_fmap. by destruct (dict_get attrs name).
Qed.

Lemma hasattr_freeze o name : hasattr (freeze o) name = hasattr o name.
Proof.
  destruct o as [t|c attrs|items]; simpl; try done.
  unfold dict_has. rewrite dict_get_fmap. by destruct (dict_get attrs name).
Qed.

(** *** Trainable parameters *)

Lemma elem_of_trainable_Module c attrs path :
  path ∈ trainable_parameters (Module c attrs)
  ↔ ∃ k v q, (k, v) ∈ attrs ∧ path = Attr k :: q ∧ q ∈ trainable_parameters v.
Proof.
  simpl. rewrite list_elem_of_bind. split.
  - intros ([k v] & (q & -> & Hq)%list_elem_of_fmap & Hin). by exists k, v, q.
  - intros (k & v & q & Hin & -> & Hq). exists (k, v).
    split; [|done]. rewrite list_elem_of_fmap. by exists q.
Qed.

Lemma elem_of_items_paths (paths : obj → list (list step)) i items path :
  path ∈ items_paths paths i items
  ↔ ∃ j x q, items !! j = Some x ∧ path = Item (i + j) :: q ∧ q ∈ paths x.
Proof.
  revert i. induction items as [|x items IH]; intros i; simpl.
  - split; [by intros ?%elem_of_nil|by intros (j & ? & ? & ? & _)].
  - rewrite elem_of_app, list_elem_of_fmap, IH. split.
    + intros [(q & -> & Hq)|(j & y & q & Hj & -> & Hq)].
      * exists 0%nat, x, q. by rewrite Nat.add_0_r.
      * exists (S j), y, q. by rewrite Nat.add_succ_r.
    + intros ([|j] & y & q & Hj & -> & Hq); simpl in Hj.
      * left. simplify_eq. exists q. by rewrite Nat.add_0_r.
      * right. exists j, y, q. by rewrite Nat.add_succ_r.
Qed.

Lemma elem_of_trainable_ModList items path :
  path ∈ trainable_parameters (ModList items)
  ↔ ∃ j x q, items !! j = Some x ∧ path = Item j :: q ∧ q ∈ trainable_parameters x.
Proof. simpl. by rewrite elem_of_items_paths. Qed.

Lemma trainable_freeze o : trainable_parameters (freeze o) = [].
Proof.
  induction o as [t|c attrs IH|items IH] using obj_ind.
  - reflexivity.
  - apply elem_of_nil_inv. intros path.
    change (freeze (Module c attrs))
      with (Module c ((λ '(k, v), (k, freeze v)) <$> attrs)).
    rewrite elem_of_trainable_Module. intros (k & v & q & Hin & _ & Hq).
    apply list_elem_of_fmap in Hin as ([k' v'] & [= -> ->] & Hin).
    rewrite Forall_forall in IH. pose proof (IH _ Hin) as Hv. simpl in Hv.
    rewrite Hv in Hq. by apply elem_of_nil in Hq.
  - apply elem_of_nil_inv. intros path.
    change (freeze (ModList items)) with (ModList (freeze <$> items)).
    rewrite elem_of_trainable_ModList. intros (j & x & q & Hj & _ & Hq).
    apply list_lookup_fmap_Some in Hj as (y & -> & Hy).
    rewrite Forall_forall in IH.
    rewrite (IH y) in Hq by by eapply list_elem_of_lookup_2. by apply elem_of_nil in Hq.
Qed.

Lemma elem_of_trainable_adapter linear path :
  trainable_parameters linear = [] →
  path ∈ trainable_parameters (adapter linear)
  ↔ path = [Attr "lora_a"] ∨ path = [Attr "lora_b"].
Proof.
  intros Hfrozen. unfold adapter, LoRALinear_from_linear. simpl.
  rewrite Hfrozen. simpl. rewrite !elem_of_cons, elem_of_nil. tauto.
Qed.

(** ** [modify_model_with_lora] *)

Lemma io_bind_lift_ok {E A B} (a : A) (f : A → io E B) : lift (Ok a) ≫= f = f a.
Proof. unfold mbind, io_bind, lift. by destruct (f a). Qed.

Lemma io_bind_pair {E A B} (a : A) (t : list E) (f : A → io E B) :
  (Ok a, t) ≫= f = (outcome (f a), t ++ effects (f a)).
Proof. unfold mbind, io_bind. by destruct (f a). Qed.

Lemma io_bind_tell {E B} (e : E) (f : unit → io E B) :
  tell e ≫= f = (outcome (f tt), e :: effects (f tt)).
Proof. unfold mbind, io_bind, tell. by destruct (f tt). Qed.

(** *** One projection name *)

Lemma replace_if_present_eq owner target proj :
  replace_if_present owner target proj
  = (Ok (wrapped target proj),
     if hasattr target proj then [SetAttr owner proj] else []).
Proof.
  unfold replace_if_present, wrapped. destruct (hasattr target proj) eqn:Hhas.
  - apply hasattr_getattr in Hhas as [linear Hlinear].
    rewrite Hlinear, io_bind_lift_ok.
    rewrite (setattr_store _ _ _ _ Hlinear), io_bind_lift_ok. reflexivity.
  - apply hasattr_false_getattr in Hhas. by rewrite Hhas.
Qed.

Lemma hasattr_wrapped target proj name :
  hasattr (wrapped target proj) name = hasattr target name.
Proof.
  unfold wrapped. destruct (getattr target proj) as [linear|e] eqn:E; [|done].
  apply hasattr_store, hasattr_getattr. eauto.
Qed.

Lemma getattr_wrapped target proj name :
  getattr (wrapped target proj) name
  = if decide (proj = name) then adapter <$> getattr target name
    else getattr target name.
Proof.
  unfold wrapped. destruct (getattr target proj) as [linear|e] eqn:E.
  - destruct (decide (proj = name)) as [<-|Hne].
    + by rewrite (getattr_store_eq _ _ _ _ E), E.
    + by apply getattr_store_ne.
  - destruct (decide (proj = name)) as [<-|Hne]; [by rewrite E|done].
Qed.

(** *** A loop over projection names *)

Lemma hasattr_adapted names target name :
  hasattr (adapted names target) name = hasattr target name.
Proof.
  revert target. induction names as [|proj names IH]; intros target; [done|].
  simpl. by rewrite IH, hasattr_wrapped.
Qed.

Lemma present_wrapped target proj names :
  present (wrapped target proj) names = present target names.
Proof.
  unfold present. apply list_filter_iff. intros name. by rewrite hasattr_wrapped.
Qed.

Lemma for_replace_if_present owner names target :
  for_ names (replace_if_present owner) target
  = (Ok (adapted names target), SetAttr owner <$> present target names).
Proof.
  revert target. induction names as [|proj names IH]; intros target; [done|].
  simpl. rewrite replace_if_present_eq, io_bind_pair, IH. simpl.
  rewrite present_wrapped. unfold present at 2. rewrite filter_cons.
  destruct (hasattr target proj); by case_decide.
Qed.

Lemma getattr_adapted names target name :
  NoDup names →
  getattr (adapted names target) name
  = if decide (name ∈ names) then adapter <$> getattr target name
    else getattr target name.
Proof.
  revert target. induction names as [|proj names IH]; intros target Hnd.
  - change (adapted [] target) with target.
    case_decide as Hin; [by apply elem_of_nil in Hin|done].
  - apply NoDup_cons in Hnd as [Hproj Hnd].
    change (adapted (proj :: names) target) with (adapted names (wrapped target proj)).
    rewrite IH, getattr_wrapped by done.
    repeat case_decide; subst; try done; exfalso;
      rewrite elem_of_cons in *; intuition congruence.
Qed.

Lemma adapted_not_module names target :
  (∀ c attrs, target ≠ Module c attrs) → adapted names target = target.
Proof.
  intros Ht. induction names as [|proj names IH]; [done|]. simpl.
  assert (wrapped target proj = target) as ->; [|done].
  destruct target; try done. by destruct (Ht c attrs).
Qed.

Lemma adapted_module names c attrs :
  NoDup names →
  ∃ attrs',
    adapted names (Module c attrs) = Module c attrs'
    ∧ ∀ k v, (k, v) ∈ attrs' →
             (k, v) ∈ attrs
             ∨ k ∈ names ∧ ∃ linear, dict_get attrs k = Some linear ∧ v = adapter linear.
Proof.
  revert attrs. induction names as [|proj names IH]; intros attrs Hnd.
  - exists attrs. split; [done|]. by left.
  - apply NoDup_cons in Hnd as [Hproj Hnd]. simpl. unfold wrapped at 1. simpl.
    destruct (dict_get attrs proj) as [linear|] eqn:E; simpl.
    + destruct (IH (dict_set attrs proj (adapter linear)) Hnd) as (attrs' & -> & Hin).
      exists attrs'. split; [done|]. intros k v Hkv.
      destruct (Hin k v Hkv) as [Hset|(Hk & old & Hold & ->)].
      * apply elem_of_dict_set in Hset as [?|[= -> ->]]; [by left|].
        right. split; [by left|]. by exists linear.
      * right. split; [by right|]. exists old. split; [|done].
        rewrite dict_get_set_ne in Hold; [done|]. by intros ->.
    + destruct (IH attrs Hnd) as (attrs' & -> & Hin).
      exists attrs'. split; [done|]. intros k v Hkv.
      destruct (Hin k v Hkv) as [?|(Hk & old & Hold & ->)]; [by left|].
      right. split; [by right|]. by exists old.
Qed.

(** *** A loop over the items of a list *)

Lemma for_each_eq {E A} (body : nat → A → io E A) (f : A → A)
    (g : nat → A → list E) (k : nat) (xs : list A) :
  (∀ j x, x ∈ xs → body j x = (Ok (f x), g j x)) →
  for_each k xs body = (Ok (f <$> xs), mjoin (imap (λ j, g (k + j)%nat) xs)).
Proof.
  revert k. induction xs as [|x xs IH]; intros k Hbody; [done|].
  simpl. rewrite Hbody by by left. rewrite io_bind_pair.
  rewrite IH by (intros; apply Hbody; by right). simpl.
  rewrite app_nil_r, Nat.add_0_r. do 3 f_equal.
  apply imap_ext. intros j y _. simpl. by rewrite Nat.add_succ_r.
Qed.

(** *** One layer *)

Lemma NoDup_projections : NoDup projections.
Proof. apply (bool_decide_unpack _). vm_compute. exact I. Qed.

Lemma NoDup_attention_projections : NoDup attention_projections.
Proof. apply (bool_decide_unpack _). vm_compute. exact I. Qed.

Lemma NoDup_feed_forward_projections : NoDup feed_forward_projections.
Proof. apply (bool_decide_unpack _). vm_compute. exact I. Qed.

Lemma experts_not_feed_forward : "experts" ∉ feed_forward_projections.
Proof. apply (bool_decide_unpack _). vm_compute. exact I. Qed.

Lemma getattr_experts_adapted moe :
  getattr (adapted feed_forward_projections moe) "experts" = getattr moe "experts".
Proof.
  rewrite getattr_adapted by apply NoDup_feed_forward_projections.
  by rewrite decide_False by apply experts_not_feed_forward.
Qed.

Lemma modify_layer_eq i l :
  wf_layer l → modify_layer i l = (Ok (adapted_layer l), layer_log i l).
Proof.
  intros [[self_attn Hsa] Hmoe]. unfold modify_layer, adapted_layer, layer_log.
  rewrite Hsa, io_bind_lift_ok.
  fold attention_projections feed_forward_projections.
  rewrite for_replace_if_present, io_bind_pair.
  rewrite (setattr_store _ _ _ _ Hsa), io_bind_lift_ok.
  rewrite hasattr_store by (apply hasattr_getattr; eauto).
  destruct (hasattr l "block_sparse_moe") eqn:Hhas.
  - destruct (Hmoe eq_refl) as (moe & experts & Hm & He).
    rewrite getattr_store_ne, Hm, io_bind_lift_ok by done.
    rewrite for_replace_if_present, io_bind_pair.
    rewrite getattr_experts_adapted, He, io_bind_lift_ok. simpl iter.
    rewrite io_bind_lift_ok.
    rewrite (for_each_eq _ (adapted projections)
               (λ j e, SetAttr (Expert i j) <$> present e projections))
      by (intros; apply for_replace_if_present).
    rewrite io_bind_pair.
    rewrite (setattr_store _ _ _ (ModList experts))
      by by rewrite getattr_experts_adapted.
    rewrite io_bind_lift_ok.
    rewrite (setattr_store _ _ _ moe) by by rewrite getattr_store_ne.
    simpl. by rewrite app_nil_r.
  - apply hasattr_false_getattr in Hhas. rewrite Hhas. reflexivity.
Qed.

(** *** The whole model *)

Lemma model_layers_inv model layers :
  model_layers model = Ok layers →
  ∃ inner, getattr model "model" = Ok inner
           ∧ getattr inner "layers" = Ok (ModList layers).
Proof.
  unfold model_layers. intros H.
  destruct (getattr model "model") as [inner|] eqn:Hinner; [|done].
  exists inner. split; [done|]. simpl in H.
  destruct (getattr inner "layers") as [[| |items]|]; simpl in H; by simplify_eq.
Qed.

Lemma present_freeze o names : present (freeze o) names = present o names.
Proof.
  unfold present. apply list_filter_iff. intros name. by rewrite hasattr_freeze.
Qed.

Lemma wf_layer_freeze l : wf_layer l → wf_layer (freeze l).
Proof.
  intros [[self_attn Hsa] Hmoe]. split.
  - exists (freeze self_attn). by rewrite getattr_freeze, Hsa.
  - rewrite hasattr_freeze. intros Hhas.
    destruct (Hmoe Hhas) as (moe & experts & Hm & He).
    exists (freeze moe), (freeze <$> experts).
    by rewrite !getattr_freeze, Hm, He.
Qed.

Lemma layer_log_freeze i l : layer_log i (freeze l) = layer_log i l.
Proof.
  unfold layer_log. rewrite !getattr_freeze.
  destruct (getattr l "self_attn") as [self_attn|]; [|done]. simpl.
  rewrite present_freeze. f_equal.
  destruct (getattr l "block_sparse_moe") as [moe|]; [|done]. simpl.
  rewrite present_freeze, getattr_freeze. f_equal.
  destruct (getattr moe "experts") as [[| |experts]|]; try done. simpl.
  f_equal. rewrite imap_fmap. apply imap_ext. intros j e _. simpl.
  by rewrite present_freeze.
Qed.

Theorem modify_model_with_lora_eq model layers :
  model_layers model = Ok layers →
  Forall wf_layer layers →
  modify_model_with_lora model = (Ok (adapted_model model), model_log layers).
Proof.
  intros (inner & Hinner & Hlayers)%model_layers_inv Hwf.
  unfold modify_model_with_lora, adapted_model, model_log.
  rewrite io_bind_tell, getattr_freeze, Hinner. simpl fmap.
  rewrite io_bind_lift_ok, getattr_freeze, Hlayers. simpl fmap.
  rewrite io_bind_lift_ok. simpl iter. rewrite io_bind_lift_ok.
  rewrite (for_each_eq _ adapted_layer layer_log).
  - rewrite io_bind_pair.
    rewrite (setattr_store _ _ _ (freeze (ModList layers)))
      by by rewrite getattr_freeze, Hlayers.
    rewrite io_bind_lift_ok.
    rewrite (setattr_store _ _ _ (freeze inner)) by by rewrite getattr_freeze, Hinner.
    simpl. rewrite app_nil_r. do 3 f_equal.
    rewrite imap_fmap. apply imap_ext. intros j l _. simpl. apply layer_log_freeze.
  - intros j l (l0 & -> & Hl0)%list_elem_of_fmap.
    apply modify_layer_eq, wf_layer_freeze. rewrite Forall_forall in Hwf. auto.
Qed.

(** *** The log, layer by layer *)

Lemma layer_log_layer i l :
  Forall (λ ev, event_layer ev = Some i) (layer_log i l).
Proof.
  unfold layer_log. destruct (getattr l "self_attn") as [self_attn|]; [|done].
  apply Forall_app. split; [apply Forall_fmap, Forall_true; done|].
  destruct (getattr l "block_sparse_moe") as [moe|]; [|done].
  apply Forall_app. split; [apply Forall_fmap, Forall_true; done|].
  destruct (getattr moe "experts") as [[| |experts]|]; try done.
  apply Forall_forall. intros ev (evs & Hev & (j & e & -> & _)%elem_of_lookup_imap)%list_elem_of_join.
  by apply list_elem_of_fmap in Hev as (proj & -> & _).
Qed.

Lemma model_log_split layers i l :
  layers !! i = Some l →
  ∃ before after,
    model_log layers = before ++ layer_log i l ++ after
    ∧ Forall (λ ev, event_layer ev ≠ Some i) before
    ∧ Forall (λ ev, event_layer ev ≠ Some i) after.
Proof.
  intros Hl. unfold model_log.
  exists (Froze :: mjoin (imap layer_log (take i layers))),
         (mjoin (imap (λ j, layer_log (S i + j)) (drop (S i) layers))).
  assert (length (take i layers) = i) as Hlen
    by (apply length_take_le, Nat.lt_le_incl, (lookup_lt_Some _ _ _ Hl)).
  split; [|split].
  - rewrite <- (take_drop_middle _ _ _ Hl) at 1.
    rewrite imap_app, join_app, imap_cons. simpl. rewrite Hlen, Nat.add_0_r.
    do 4 f_equal. apply imap_ext. intros j x _. simpl.
    by rewrite Nat.add_succ_r.
  - constructor; [done|]. apply Forall_forall.
    intros ev (evs & Hev & (j & x & -> & Hj)%elem_of_lookup_imap)%list_elem_of_join.
    pose proof (layer_log_layer j x) as Hlayer. rewrite Forall_forall in Hlayer.
    rewrite (Hlayer _ Hev). intros [= ->].
    apply lookup_lt_Some in Hj. lia.
  - apply Forall_forall.
    intros ev (evs & Hev & (j & x & -> & Hj)%elem_of_lookup_imap)%list_elem_of_join.
    pose proof (layer_log_layer (S i + j) x) as Hlayer.
    rewrite Forall_forall in Hlayer. rewrite (Hlayer _ Hev). intros [= ?]. lia.
Qed.

Lemma replaced_at_app owner log1 log2 :
  replaced_at owner (log1 ++ log2) = replaced_at owner log1 ++ replaced_at owner log2.
Proof. apply omap_app. Qed.

Lemma replaced_at_cons owner owner' proj log :
  replaced_at owner (SetAttr owner' proj :: log)
  = if decide (owner' = owner) then proj :: replaced_at owner log
    else replaced_at owner log.
Proof. unfold replaced_at. simpl. by case_decide. Qed.

Lemma replaced_at_other_layer owner log :
  Forall (λ ev, event_layer ev ≠ Some (site_layer owner)) log →
  replaced_at owner log = [].
Proof.
  induction 1 as [|ev log Hev _ IH]; [done|].
  destruct ev as [|owner' proj]; [done|].
  rewrite replaced_at_cons, IH. case_decide; [|done]. by subst.
Qed.

Lemma replaced_at_same owner names :
  replaced_at owner (SetAttr owner <$> names) = names.
Proof.
  induction names as [|proj names IH]; [done|].
  rewrite fmap_cons, replaced_at_cons, IH. by rewrite decide_True.
Qed.

Lemma replaced_at_other owner owner' names :
  owner' ≠ owner → replaced_at owner (SetAttr owner' <$> names) = [].
Proof.
  intros Hne. induction names as [|proj names IH]; [done|].
  rewrite fmap_cons, replaced_at_cons, IH. by rewrite decide_False.
Qed.

Lemma replaced_at_experts owner i (f : obj → list string) experts :
  (∀ j, owner ≠ Expert i j) →
  replaced_at owner (mjoin (imap (λ j e, SetAttr (Expert i j) <$> f e) experts)) = [].
Proof.
  intros Hne. apply elem_of_nil_inv. intros proj.
  unfold replaced_at. rewrite list_elem_of_omap.
  intros (ev & (evs & Hev & (j & e & -> & _)%elem_of_lookup_imap)%list_elem_of_join & Hproj).
  apply list_elem_of_fmap in Hev as (proj' & -> & _).
  rewrite decide_False in Hproj; [done|]. intros <-. by apply (Hne j).
Qed.

(** *** The tree the injector leaves *)

Lemma at_path_Attr o name p :
  at_path o (Attr name :: p)
  = match getattr o name with Ok v => at_path v p | Raise _ => None end.
Proof.
  destruct o as [t|c attrs|items]; simpl; try done.
  by destruct (dict_get attrs name).
Qed.

Lemma at_path_app o p q : at_path o (p ++ q) = at_path o p ≫= λ o', at_path o' q.
Proof.
  revert o. induction p as [|[name|i] p IH]; intros o; [done| |].
  - simpl app. rewrite !at_path_Attr. by destruct (getattr o name).
  - destruct o as [t|c attrs|items]; simpl; try done.
    by destruct (items !! i).
Qed.

Lemma at_path_layer model layers i l :
  model_layers model = Ok layers →
  layers !! i = Some l →
  at_path (adapted_model model) (layers_path ++ [Item i])
  = Some (adapted_layer (freeze l)).
Proof.
  intros (inner & Hinner & Hlayers)%model_layers_inv Hl.
  assert (getattr (freeze model) "model" = Ok (freeze inner)) as Hfm
    by by rewrite getattr_freeze, Hinner.
  assert (getattr (freeze inner) "layers" = Ok (ModList (freeze <$> layers))) as Hfl
    by by rewrite getattr_freeze, Hlayers.
  unfold adapted_model, layers_path. rewrite Hfm, Hfl. simpl app.
  rewrite at_path_Attr, (getattr_store_eq _ _ _ _ Hfm).
  rewrite at_path_Attr, (getattr_store_eq _ _ _ _ Hfl).
  simpl. by rewrite !list_lookup_fmap, Hl.
Qed.

Lemma getattr_adapted_layer_self_attn l self_attn :
  getattr l "self_attn" = Ok self_attn →
  getattr (adapted_layer l) "self_attn"
  = Ok (adapted attention_projections self_attn).
Proof.
  intros Hsa. unfold adapted_layer. rewrite Hsa.
  destruct (getattr l "block_sparse_moe") as [moe|];
    [destruct (getattr moe "experts") as [[| |experts]|]|];
    rewrite ?getattr_store_ne by done; by apply (getattr_store_eq _ _ _ self_attn).
Qed.

Lemma getattr_adapted_layer_moe l self_attn moe experts :
  getattr l "self_attn" = Ok self_attn →
  getattr l "block_sparse_moe" = Ok moe →
  getattr moe "experts" = Ok (ModList experts) →
  getattr (adapted_layer l) "block_sparse_moe" = Ok (adapted_moe moe experts).
Proof.
  intros Hsa Hm He. unfold adapted_layer. rewrite Hsa, Hm, He.
  apply (getattr_store_eq _ _ _ moe). by rewrite getattr_store_ne.
Qed.

Lemma getattr_adapted_layer_other l name :
  name ≠ "self_attn" → name ≠ "block_sparse_moe" →
  getattr (adapted_layer l) name = getattr l name.
Proof.
  intros Hsa Hmoe. unfold adapted_layer.
  repeat case_match; rewrite ?getattr_store_ne by done; done.
Qed.

Lemma adapted_layer_no_moe l self_attn :
  getattr l "self_attn" = Ok self_attn →
  hasattr l "block_sparse_moe" = false →
  adapted_layer l = store l "self_attn" (adapted attention_projections self_attn).
Proof.
  intros Hsa Hno%hasattr_false_getattr. unfold adapted_layer. by rewrite Hsa, Hno.
Qed.

(** The attribute of a name the loop runs over is wrapped if it is there;
    any other attribute is as it was. *)
Lemma getattr_adapted_freeze names target name :
  NoDup names →
  getattr (adapted names (freeze target)) name
  = if decide (name ∈ names) then adapter ∘ freeze <$> getattr target name
    else freeze <$> getattr target name.
Proof.
  intros Hnd. rewrite getattr_adapted, getattr_freeze by done.
  case_decide; [|done]. by destruct (getattr target name).
Qed.

(** *** What is left trainable *)

Lemma frozen_elem c attrs k v :
  trainable_parameters (Module c attrs) = [] → (k, v) ∈ attrs →
  trainable_parameters v = [].
Proof.
  intros Hf Hin. apply elem_of_nil_inv. intros q Hq.
  assert (Attr k :: q ∈ trainable_parameters (Module c attrs)) as H
    by (apply elem_of_trainable_Module; by exists k, v, q).
  rewrite Hf in H. by apply elem_of_nil in H.
Qed.

Lemma elem_of_trainable_store o name v path :
  trainable_parameters o = [] → hasattr o name = true →
  path ∈ trainable_parameters (store o name v)
  ↔ ∃ q, path = Attr name :: q ∧ q ∈ trainable_parameters v.
Proof.
  intros Hf Hhas. destruct o as [t|c attrs|items]; try done.
  change (store (Module c attrs) name v) with (Module c (dict_set attrs name v)).
  rewrite elem_of_trainable_Module. split.
  - intros (k & x & q & Hin & -> & Hq).
    apply elem_of_dict_set in Hin as [Hin|[= -> ->]]; [|by exists q].
    rewrite (frozen_elem _ _ _ _ Hf Hin) in Hq. by apply elem_of_nil in Hq.
  - intros (q & -> & Hq). exists name, v, q. split; [by apply dict_set_elem_of|done].
Qed.

Lemma elem_of_trainable_adapted names target path :
  NoDup names → trainable_parameters target = [] →
  path ∈ trainable_parameters (adapted names target)
  ↔ ∃ proj ab, proj ∈ names ∧ hasattr target proj = true
               ∧ (ab = "lora_a" ∨ ab = "lora_b") ∧ path = [Attr proj; Attr ab].
Proof.
  intros Hnd Hf. destruct target as [t|c attrs|items].
  - rewrite adapted_not_module, Hf by done.
    split; [by intros ?%elem_of_nil|by intros (proj & ab & _ & ? & _)].
  - destruct (adapted_module names c attrs Hnd) as (attrs' & Heq & Hin). split.
    + rewrite Heq, elem_of_trainable_Module. intros (k & v & q & Hkv & -> & Hq).
      destruct (Hin k v Hkv) as [Hold|(Hk & linear & Hlin & ->)].
      * rewrite (frozen_elem _ _ _ _ Hf Hold) in Hq. by apply elem_of_nil in Hq.
      * apply elem_of_trainable_adapter in Hq;
          [|by eapply frozen_elem, dict_get_elem_of].
        assert (hasattr (Module c attrs) k = true) as Hhas
          by (simpl; unfold dict_has; by rewrite Hlin).
        destruct Hq as [-> | ->]; [exists k, "lora_a"|exists k, "lora_b"]; auto.
    + intros (proj & ab & Hproj & Hhas & Hab & ->).
      apply hasattr_getattr in Hhas as [linear Hlin].
      pose proof (getattr_adapted names (Module c attrs) proj Hnd) as Hget.
      rewrite decide_True, Hlin, Heq in Hget by done.
      apply getattr_is_module in Hget as (c' & attrs'' & [= <- <-] & Hget).
      apply getattr_is_module in Hlin as (c' & attrs'' & [= <- <-] & Hlin).
      rewrite Heq, elem_of_trainable_Module.
      exists proj, (adapter linear), [Attr ab].
      split; [by apply dict_get_elem_of|]. split; [done|].
      apply elem_of_trainable_adapter; [by eapply frozen_elem, dict_get_elem_of|].
      destruct Hab as [-> | ->]; auto.
  - rewrite adapted_not_module, Hf by done.
    split; [by intros ?%elem_of_nil|by intros (proj & ab & _ & ? & _)].
Qed.

(** ** The claims on the injector *)

Lemma attention_only_wf l : attention_only_layer l → wf_layer l.
Proof.
  intros [(self_attn & Hsa & _) Hno]. split; [by exists self_attn|].
  by rewrite Hno.
Qed.

Lemma present_all target names :
  Forall (λ proj, hasattr target proj = true) names → present target names = names.
Proof.
  unfold present. induction 1 as [|proj names Hproj _ IH]; [done|].
  by rewrite filter_cons_True, IH.
Qed.

Lemma attention_only_log layers :
  Forall attention_only_layer layers →
  model_log layers
  = Froze :: mjoin (imap (λ i _, SetAttr (SelfAttn i) <$> attention_projections)
                         layers).
Proof.
  intros Hall. unfold model_log. do 2 f_equal. apply imap_ext. intros i l Hl.
  destruct (Forall_lookup_1 _ _ _ _ Hall Hl) as [(self_attn & Hsa & Hfour) Hno].
  apply hasattr_false_getattr in Hno. unfold layer_log.
  by rewrite Hsa, Hno, (present_all _ _ Hfour), app_nil_r.
Qed.

Lemma mjoin_cons {A} (x : list A) (xs : list (list A)) :
  mjoin (x :: xs) = x ++ mjoin xs.
Proof. reflexivity. Qed.

Lemma length_replacements_attention {A} (layers : list A) :
  length (replacements
            (Froze :: mjoin (imap (λ i _, SetAttr (SelfAttn i) <$> attention_projections)
                                  layers)))
  = (4 * length layers)%nat.
Proof.
  unfold replacements. simpl omap.
  assert (∀ k, length (omap (λ ev, match ev with
                                   | SetAttr owner proj => Some (owner, proj)
                                   | Froze => None
                                   end)
                         (mjoin (imap (λ i (_ : A), SetAttr (SelfAttn (k + i))
                                                     <$> attention_projections)
                                      layers)))
               = (4 * length layers)%nat) as H; [|apply (H 0%nat)].
  induction layers as [|l layers IH]; intros k; [done|].
  rewrite imap_cons, mjoin_cons, omap_app, length_app.
  rewrite (imap_ext _ (λ i (_ : A), SetAttr (SelfAttn (S k + i)) <$> attention_projections))
    by (intros j x _; simpl; by rewrite Nat.add_succ_r).
  rewrite IH. simpl. lia.
Qed.

(** C1: on a tree of N layers, each with the four attention projections
    and no mixture-of-experts block, the injector freezes and then makes
    exactly the 4N replacements, layer after layer and in the order
    q, k, v, o; each projection becomes the adapter wrapper built from the
    module that was there (frozen) with r=64 and alpha=128; the trainable
    parameters of the tree it leaves are the low-rank pairs of those 4N
    wrappers and nothing else. *)
Theorem C1_attention_only (model : obj) (layers : list obj) :
  model_layers model = Ok layers →
  Forall attention_only_layer layers →
  ∃ model',
    modify_model_with_lora model
    = (Ok model',
       Froze :: mjoin (imap (λ i _, SetAttr (SelfAttn i) <$> attention_projections)
                            layers))
    ∧ length (replacements (effects (modify_model_with_lora model)))
      = (4 * length layers)%nat
    ∧ (∀ i l self_attn proj linear,
         layers !! i = Some l →
         getattr l "self_attn" = Ok self_attn →
         proj ∈ attention_projections →
         getattr self_attn proj = Ok linear →
         at_path model' (layers_path ++ [Item i; Attr "self_attn"; Attr proj])
         = Some (LoRALinear_from_linear (freeze linear) 64 128))
    ∧ (∀ path,
         path ∈ trainable_parameters model'
         ↔ ∃ i proj ab,
             (i < length layers)%nat ∧ proj ∈ attention_projections
             ∧ (ab = "lora_a" ∨ ab = "lora_b")
             ∧ path = layers_path ++ [Item i; Attr "self_attn"; Attr proj; Attr ab]).
Proof.
  intros Hlayers Hall.
  assert (Forall wf_layer layers) as Hwf
    by (eapply Forall_impl; [exact Hall|apply attention_only_wf]).
  assert (modify_model_with_lora model
          = (Ok (adapted_model model),
             Froze :: mjoin (imap (λ i _, SetAttr (SelfAttn i) <$> attention_projections)
                                  layers))) as Hrun
    by by rewrite (modify_model_with_lora_eq _ _ Hlayers Hwf), attention_only_log.
  exists (adapted_model model). split; [done|]. split; [|split].
  - rewrite Hrun. apply length_replacements_attention.
  - intros i l self_attn proj linear Hl Hsa Hproj Hlinear.
    change (layers_path ++ [Item i; Attr "self_attn"; Attr proj])
      with ((layers_path ++ [Item i]) ++ [Attr "self_attn"; Attr proj]).
    rewrite at_path_app, (at_path_layer _ _ _ _ Hlayers Hl).
    cbn [mbind option_bind]. rewrite at_path_Attr.
    rewrite (getattr_adapted_layer_self_attn _ (freeze self_attn))
      by by rewrite getattr_freeze, Hsa.
    rewrite at_path_Attr, getattr_adapted_freeze by apply NoDup_attention_projections.
    by rewrite decide_True, Hlinear by done.
  - intros path.
    destruct (model_layers_inv _ _ Hlayers) as (inner & Hinner & Hlist).
    assert (getattr (freeze model) "model" = Ok (freeze inner)) as Hfm
      by by rewrite getattr_freeze, Hinner.
    assert (getattr (freeze inner) "layers" = Ok (ModList (freeze <$> layers))) as Hfl
      by by rewrite getattr_freeze, Hlist.
    unfold adapted_model. rewrite Hfm, Hfl.
    rewrite elem_of_trainable_store
      by (apply trainable_freeze || (apply hasattr_getattr; eauto)).
    split.
    + intros (q & -> & Hq).
      apply elem_of_trainable_store in Hq as (q' & -> & Hq);
        [|apply trainable_freeze|apply hasattr_getattr; eauto].
      apply elem_of_trainable_ModList in Hq as (i & x & q & Hx & -> & Hq).
      rewrite !list_lookup_fmap in Hx.
      destruct (layers !! i) as [l|] eqn:Hl; [|done]. injection Hx as <-.
      destruct (Forall_lookup_1 _ _ _ _ Hall Hl) as [(self_attn & Hsa & Hfour) Hno].
      rewrite (adapted_layer_no_moe _ (freeze self_attn)) in Hq
        by (by rewrite ?getattr_freeze, ?hasattr_freeze, ?Hsa).
      apply elem_of_trainable_store in Hq as (q' & -> & Hq);
        [|apply trainable_freeze
         |rewrite hasattr_freeze; apply hasattr_getattr; eauto].
      apply elem_of_trainable_adapted in Hq
          as (proj & ab & Hproj & _ & Hab & ->);
        [|apply NoDup_attention_projections|apply trainable_freeze].
      exists i, proj, ab. split; [by eapply lookup_lt_Some|done].
    + intros (i & proj & ab & Hi & Hproj & Hab & ->).
      destruct (lookup_lt_is_Some_2 layers i Hi) as [l Hl].
      destruct (Forall_lookup_1 _ _ _ _ Hall Hl) as [(self_attn & Hsa & Hfour) Hno].
      eexists. split; [reflexivity|].
      apply elem_of_trainable_store;
        [apply trainable_freeze|apply hasattr_getattr; eauto|].
      eexists. split; [reflexivity|].
      apply elem_of_trainable_ModList.
      exists i, (adapted_layer (freeze l)), [Attr "self_attn"; Attr proj; Attr ab].
      split; [by rewrite !list_lookup_fmap, Hl|]. split; [done|].
      rewrite (adapted_layer_no_moe _ (freeze self_attn))
        by (by rewrite ?getattr_freeze, ?hasattr_freeze, ?Hsa).
      apply elem_of_trainable_store;
        [apply trainable_freeze
        |rewrite hasattr_freeze; apply hasattr_getattr; eauto|].
      eexists. split; [reflexivity|].
      apply elem_of_trainable_adapted;
        [apply NoDup_attention_projections|apply trainable_freeze|].
      exists proj, ab. split; [done|]. split; [|done].
      rewrite hasattr_freeze. rewrite Forall_forall in Hfour. auto.
Qed.

(** C1 on a model of two layers. *)
Lemma C1_attention_only_witness :
  let layers := [dense_layer full_attention; dense_layer full_attention] in
  let model := model_of layers in
  ∃ model',
    modify_model_with_lora model
    = (Ok model',
       Froze :: mjoin (imap (λ i _, SetAttr (SelfAttn i) <$> attention_projections)
                            layers))
    ∧ length (replacements (effects (modify_model_with_lora model)))
      = (4 * length layers)%nat
    ∧ (∀ i l self_attn proj linear,
         layers !! i = Some l →
         getattr l "self_attn" = Ok self_attn →
         proj ∈ attention_projections →
         getattr self_attn proj = Ok linear →
         at_path model' (layers_path ++ [Item i; Attr "self_attn"; Attr proj])
         = Some (LoRALinear_from_linear (freeze linear) 64 128))
    ∧ (∀ path,
         path ∈ trainable_parameters model'
         ↔ ∃ i proj ab,
             (i < length layers)%nat ∧ proj ∈ attention_projections
             ∧ (ab = "lora_a" ∨ ab = "lora_b")
             ∧ path = layers_path ++ [Item i; Attr "self_attn"; Attr proj; Attr ab]).
Proof.
  intros layers model. apply (C1_attention_only model layers).
  - reflexivity.
  - assert (attention_only_layer (dense_layer full_attention)) as Hlayer.
    { split; [|reflexivity]. exists full_attention. split; [reflexivity|].
      repeat (apply Forall_cons_2; [reflexivity|]). apply Forall_nil_2. }
    repeat (apply Forall_cons_2; [exact Hlayer|]). apply Forall_nil_2.
Defined.

Lemma replaced_at_self_attn i l self_attn :
  getattr l "self_attn" = Ok self_attn →
  replaced_at (SelfAttn i) (layer_log i l) = present self_attn attention_projections.
Proof.
  intros Hsa. unfold layer_log. rewrite Hsa, replaced_at_app, replaced_at_same.
  destruct (getattr l "block_sparse_moe") as [moe|]; [|by rewrite app_nil_r].
  rewrite replaced_at_app, replaced_at_other by done.
  destruct (getattr moe "experts") as [[| |experts]|]; try by rewrite app_nil_r.
  by rewrite replaced_at_experts, app_nil_r.
Qed.

Lemma replaced_at_model_log owner layers l :
  layers !! site_layer owner = Some l →
  replaced_at owner (model_log layers)
  = replaced_at owner (layer_log (site_layer owner) l).
Proof.
  intros Hl.
  destruct (model_log_split _ _ _ Hl) as (before & after & -> & Hb & Ha).
  rewrite !replaced_at_app.
  rewrite (replaced_at_other_layer _ before), (replaced_at_other_layer _ after) by done.
  by rewrite app_nil_r.
Qed.

(** C5: when the attention block of a layer has [q_proj] and [v_proj]
    but neither [k_proj] nor [o_proj], the injector raises nothing, its
    replacements on that block are those of [q_proj] and [v_proj], in this
    order, and the block it leaves has the two wrappers (built from the
    frozen modules that were there, r=64, alpha=128), still no [k_proj] and
    no [o_proj], and every other attribute as it was, frozen; the other
    attributes of the layer are as they were, frozen, and without a
    mixture-of-experts block the layer differs from its frozen self in
    the attention block only. *)
Theorem C5_partial_attention (model : obj) (layers : list obj) (i : nat)
    (l self_attn : obj) :
  model_layers model = Ok layers →
  Forall wf_layer layers →
  layers !! i = Some l →
  getattr l "self_attn" = Ok self_attn →
  hasattr self_attn "q_proj" = true →
  hasattr self_attn "v_proj" = true →
  hasattr self_attn "k_proj" = false →
  hasattr self_attn "o_proj" = false →
  ∃ model' log self_attn' q v,
    modify_model_with_lora model = (Ok model', log)
    ∧ replaced_at (SelfAttn i) log = ["q_proj"; "v_proj"]
    ∧ at_path model' (layers_path ++ [Item i; Attr "self_attn"]) = Some self_attn'
    ∧ getattr self_attn "q_proj" = Ok q
    ∧ getattr self_attn "v_proj" = Ok v
    ∧ getattr self_attn' "q_proj" = Ok (LoRALinear_from_linear (freeze q) 64 128)
    ∧ getattr self_attn' "v_proj" = Ok (LoRALinear_from_linear (freeze v) 64 128)
    ∧ hasattr self_attn' "k_proj" = false
    ∧ hasattr self_attn' "o_proj" = false
    ∧ (∀ name, name ∉ attention_projections →
               getattr self_attn' name = freeze <$> getattr self_attn name)
    ∧ (∀ name, name ≠ "self_attn" → name ≠ "block_sparse_moe" →
               at_path model' (layers_path ++ [Item i; Attr name])
               = at_path (freeze l) [Attr name])
    ∧ (hasattr l "block_sparse_moe" = false →
       at_path model' (layers_path ++ [Item i])
       = Some (store (freeze l) "self_attn" self_attn')).
Proof.
  intros Hlayers Hwf Hl Hsa Hq Hv Hk Ho.
  apply hasattr_getattr in Hq as Hq'. destruct Hq' as [q Hq'].
  apply hasattr_getattr in Hv as Hv'. destruct Hv' as [v Hv'].
  assert (getattr (freeze l) "self_attn" = Ok (freeze self_attn)) as Hfsa
    by by rewrite getattr_freeze, Hsa.
  exists (adapted_model model), (model_log layers),
         (adapted attention_projections (freeze self_attn)), q, v.
  split; [by apply modify_model_with_lora_eq|]. split.
  { rewrite (replaced_at_model_log (SelfAttn i) _ l Hl). simpl site_layer.
    rewrite (replaced_at_self_attn _ _ _ Hsa). unfold present.
    change attention_projections with ["q_proj"; "k_proj"; "v_proj"; "o_proj"].
    rewrite !filter_cons, filter_nil, Hq, Hv, Hk, Ho. by repeat case_decide. }
  split.
  { change (layers_path ++ [Item i; Attr "self_attn"])
      with ((layers_path ++ [Item i]) ++ [Attr "self_attn"]).
    rewrite at_path_app, (at_path_layer _ _ _ _ Hlayers Hl).
    cbn [mbind option_bind]. rewrite at_path_Attr.
    by rewrite (getattr_adapted_layer_self_attn _ _ Hfsa). }
  split; [done|]. split; [done|].
  pose proof NoDup_attention_projections as Hnd.
  split; [by rewrite getattr_adapted_freeze, decide_True, Hq' by
              (done || (apply (bool_decide_unpack _); vm_compute; exact I))|].
  split; [by rewrite getattr_adapted_freeze, decide_True, Hv' by
              (done || (apply (bool_decide_unpack _); vm_compute; exact I))|].
  split; [by rewrite hasattr_adapted, hasattr_freeze|].
  split; [by rewrite hasattr_adapted, hasattr_freeze|].
  split; [intros name Hname; by rewrite getattr_adapted_freeze, decide_False by done|].
  split.
  - intros name Hn1 Hn2.
    change (layers_path ++ [Item i; Attr name])
      with ((layers_path ++ [Item i]) ++ [Attr name]).
    rewrite at_path_app, (at_path_layer _ _ _ _ Hlayers Hl).
    cbn [mbind option_bind]. rewrite !at_path_Attr.
    by rewrite getattr_adapted_layer_other.
  - intros Hno. rewrite (at_path_layer _ _ _ _ Hlayers Hl).
    by rewrite (adapted_layer_no_moe _ (freeze self_attn))
      by by rewrite ?hasattr_freeze.
Qed.

(** C5 on the second of three layers, the third one with a
    mixture-of-experts block. *)
Lemma C5_partial_attention_witness :
  let l := dense_layer partial_attention in
  let layers := [dense_layer full_attention; l; sparse_layer] in
  let model := model_of layers in
  ∃ model' log self_attn' q v,
    modify_model_with_lora model = (Ok model', log)
    ∧ replaced_at (SelfAttn 1) log = ["q_proj"; "v_proj"]
    ∧ at_path model' (layers_path ++ [Item 1%nat; Attr "self_attn"]) = Some self_attn'
    ∧ getattr partial_attention "q_proj" = Ok q
    ∧ getattr partial_attention "v_proj" = Ok v
    ∧ getattr self_attn' "q_proj" = Ok (LoRALinear_from_linear (freeze q) 64 128)
    ∧ getattr self_attn' "v_proj" = Ok (LoRALinear_from_linear (freeze v) 64 128)
    ∧ hasattr self_attn' "k_proj" = false
    ∧ hasattr self_attn' "o_proj" = false
    ∧ (∀ name, name ∉ attention_projections →
               getattr self_attn' name = freeze <$> getattr partial_attention name)
    ∧ (∀ name, name ≠ "self_attn" → name ≠ "block_sparse_moe" →
               at_path model' (layers_path ++ [Item 1%nat; Attr name])
               = at_path (freeze l) [Attr name])
    ∧ (hasattr l "block_sparse_moe" = false →
       at_path model' (layers_path ++ [Item 1%nat])
       = Some (store (freeze l) "self_attn" self_attn')).
Proof.
  intros l layers model.
  apply (C5_partial_attention model layers 1 l partial_attention);
    try reflexivity.
  assert (∀ self_attn, wf_layer (dense_layer self_attn)) as Hdense.
  { intros self_attn. split; [by exists self_attn|]. intros H. discriminate H. }
  apply Forall_cons_2; [apply Hdense|].
  apply Forall_cons_2; [apply Hdense|].
  apply Forall_cons_2; [|apply Forall_nil_2].
  split; [by exists full_attention|]. intros _.
  exists moe_module, [expert_module; expert_module]. split; reflexivity.
Defined.

(** C4: for a layer with a mixture-of-experts block, the injector wraps,
    on the block itself, each of [gate_proj], [up_proj] and [down_proj]
    that is there (and none of the four attention names), and then, on
    every expert of the block, each of the seven names that is there; an
    absent name stays absent and every other attribute is as it was,
    frozen.  The replacements of the layer are one run of the log: those of
    the attention block, then those of the block, then those of each expert
    in turn. *)
Theorem C4_mixture_of_experts (model : obj) (layers : list obj) (i : nat)
    (l self_attn moe : obj) (experts : list obj) :
  model_layers model = Ok layers →
  Forall wf_layer layers →
  layers !! i = Some l →
  getattr l "self_attn" = Ok self_attn →
  getattr l "block_sparse_moe" = Ok moe →
  getattr moe "experts" = Ok (ModList experts) →
  ∃ model' log moe' experts',
    modify_model_with_lora model = (Ok model', log)
    ∧ at_path model' (layers_path ++ [Item i; Attr "block_sparse_moe"]) = Some moe'
    ∧ (∀ proj, proj ∈ feed_forward_projections →
         getattr moe' proj
         = (λ linear, LoRALinear_from_linear (freeze linear) 64 128)
             <$> getattr moe proj)
    ∧ (∀ name, name ∉ feed_forward_projections → name ≠ "experts" →
         getattr moe' name = freeze <$> getattr moe name)
    ∧ getattr moe' "experts" = Ok (ModList experts')
    ∧ length experts' = length experts
    ∧ (∀ j e, experts !! j = Some e →
         ∃ e', experts' !! j = Some e'
               ∧ (∀ proj, proj ∈ projections →
                    getattr e' proj
                    = (λ linear, LoRALinear_from_linear (freeze linear) 64 128)
                        <$> getattr e proj)
               ∧ (∀ name, name ∉ projections →
                    getattr e' name = freeze <$> getattr e name))
    ∧ ∃ before after,
        log = before
              ++ ((SetAttr (SelfAttn i) <$> present self_attn attention_projections)
                  ++ (SetAttr (BlockSparseMoe i)
                        <$> present moe feed_forward_projections)
                  ++ mjoin (imap (λ j e, SetAttr (Expert i j)
                                           <$> present e projections) experts))
              ++ after
        ∧ Forall (λ ev, event_layer ev ≠ Some i) before
        ∧ Forall (λ ev, event_layer ev ≠ Some i) after.
Proof.
  intros Hlayers Hwf Hl Hsa Hmoe Hexperts.
  assert (getattr (freeze l) "self_attn" = Ok (freeze self_attn)) as Hfsa
    by by rewrite getattr_freeze, Hsa.
  assert (getattr (freeze l) "block_sparse_moe" = Ok (freeze moe)) as Hfmoe
    by by rewrite getattr_freeze, Hmoe.
  assert (getattr (freeze moe) "experts" = Ok (ModList (freeze <$> experts))) as Hfe
    by by rewrite getattr_freeze, Hexperts.
  assert (getattr (adapted feed_forward_projections (freeze moe)) "experts"
          = Ok (ModList (freeze <$> experts))) as Hae
    by by rewrite getattr_experts_adapted.
  exists (adapted_model model), (model_log layers),
         (adapted_moe (freeze moe) (freeze <$> experts)),
         (adapted projections <$> (freeze <$> experts)).
  split; [by apply modify_model_with_lora_eq|]. split.
  { change (layers_path ++ [Item i; Attr "block_sparse_moe"])
      with ((layers_path ++ [Item i]) ++ [Attr "block_sparse_moe"]).
    rewrite at_path_app, (at_path_layer _ _ _ _ Hlayers Hl).
    cbn [mbind option_bind]. rewrite at_path_Attr.
    by rewrite (getattr_adapted_layer_moe _ _ _ _ Hfsa Hfmoe Hfe). }
  split.
  { intros proj Hproj. unfold adapted_moe.
    rewrite getattr_store_ne
      by (intros <-; by apply experts_not_feed_forward).
    by rewrite getattr_adapted_freeze, decide_True
      by (done || apply NoDup_feed_forward_projections). }
  split.
  { intros name Hname Hne. unfold adapted_moe.
    rewrite getattr_store_ne by done.
    by rewrite getattr_adapted_freeze, decide_False
      by (done || apply NoDup_feed_forward_projections). }
  split; [by apply (getattr_store_eq _ _ _ _ Hae)|].
  split; [by rewrite !length_fmap|].
  split.
  { intros j e He. exists (adapted projections (freeze e)).
    split; [by rewrite !list_lookup_fmap, He|]. split.
    - intros proj Hproj.
      by rewrite getattr_adapted_freeze, decide_True
        by (done || apply NoDup_projections).
    - intros name Hname.
      by rewrite getattr_adapted_freeze, decide_False
        by (done || apply NoDup_projections). }
  destruct (model_log_split _ _ _ Hl) as (before & after & Hlog & Hb & Ha).
  exists before, after. split; [|done].
  rewrite Hlog. unfold layer_log. by rewrite Hsa, Hmoe, Hexperts.
Qed.

(** C4 on the second of two layers. *)
Lemma C4_mixture_of_experts_witness :
  let experts := [expert_module; expert_module] in
  let layers := [dense_layer full_attention; sparse_layer] in
  let model := model_of layers in
  ∃ model' log moe' experts',
    modify_model_with_lora model = (Ok model', log)
    ∧ at_path model' (layers_path ++ [Item 1%nat; Attr "block_sparse_moe"]) = Some moe'
    ∧ (∀ proj, proj ∈ feed_forward_projections →
         getattr moe' proj
         = (λ linear, LoRALinear_from_linear (freeze linear) 64 128)
             <$> getattr moe_module proj)
    ∧ (∀ name, name ∉ feed_forward_projections → name ≠ "experts" →
         getattr moe' name = freeze <$> getattr moe_module name)
    ∧ getattr moe' "experts" = Ok (ModList experts')
    ∧ length experts' = length experts
    ∧ (∀ j e, experts !! j = Some e →
         ∃ e', experts' !! j = Some e'
               ∧ (∀ proj, proj ∈ projections →
                    getattr e' proj
                    = (λ linear, LoRALinear_from_linear (freeze linear) 64 128)
                        <$> getattr e proj)
               ∧ (∀ name, name ∉ projections →
                    getattr e' name = freeze <$> getattr e name))
    ∧ ∃ before after,
        log = before
              ++ ((SetAttr (SelfAttn 1) <$> present full_attention attention_projections)
                  ++ (SetAttr (BlockSparseMoe 1)
                        <$> present moe_module feed_forward_projections)
                  ++ mjoin (imap (λ j e, SetAttr (Expert 1 j)
                                           <$> present e projections) experts))
              ++ after
        ∧ Forall (λ ev, event_layer ev ≠ Some 1%nat) before
        ∧ Forall (λ ev, event_layer ev ≠ Some 1%nat) after.
Proof.
  intros experts layers model.
  apply (C4_mixture_of_experts model layers 1 sparse_layer full_attention
           moe_module experts); try reflexivity.
  apply Forall_cons_2; [|apply Forall_cons_2; [|apply Forall_nil_2]].
  - split; [by exists full_attention|]. intros H. discriminate H.
  - split; [by exists full_attention|]. intros _.
    exists moe_module, experts. split; reflexivity.
Defined.

(** * Further properties *)

(** ** The [Dataset] class *)

(** X1: an access raises nothing but [IndexError], [KeyError] for the
    configured key, or [TypeError]; a [KeyError] comes from a stored
    mapping without the key and a [TypeError] from a stored value that is
    not a mapping. *)
Theorem getitem_exceptions (self : Dataset) (i : Z) (e : exn) :
  __getitem__ self i = Raise e →
  (e = IndexError ∧ (__len__ self ≤ i ∨ i < - __len__ self))
  ∨ (e = KeyError (_key self)
     ∧ ∃ d, PyDict d ∈ _data self ∧ dict_get d (_key self) = None)
  ∨ (e = TypeError ∧ ∃ record, record ∈ _data self ∧ ∀ d, record ≠ PyDict d).
Proof.
  unfold __getitem__. intros H.
  destruct (list_getitem (_data self) i) as [record|e'] eqn:E.
  - assert (record ∈ _data self) as Hin.
    { unfold list_getitem in E.
      repeat case_match; simplify_eq; by eapply list_elem_of_lookup_2. }
    simpl in H. destruct record; simpl in H; simplify_eq;
      try (right; right; split; [done|]; eexists; split; [exact Hin|done]).
    destruct (dict_get items (_key self)) eqn:Hd; simplify_eq.
    right. left. split; [done|]. by exists items.
  - simpl in H. simplify_eq. left.
    pose proof (list_getitem_raises _ _ _ E) as ->. split; [done|].
    by apply list_getitem_IndexError.
Qed.

(** X1 on an accessor that stores a number: the access raises [TypeError]. *)
Lemma getitem_exceptions_witness :
  (TypeError = IndexError ∧ (__len__ (Dataset__init__ [PyInt 3]) ≤ 0
                             ∨ 0 < - __len__ (Dataset__init__ [PyInt 3])))
  ∨ (TypeError = KeyError "text"
     ∧ ∃ d, PyDict d ∈ [PyInt 3] ∧ dict_get d "text" = None)
  ∨ (TypeError = TypeError ∧ ∃ record, record ∈ [PyInt 3] ∧ ∀ d, record ≠ PyDict d).
Proof.
  apply (getitem_exceptions (Dataset__init__ [PyInt 3]) 0 TypeError). reflexivity.
Defined.

(** ** [load_dataset] *)

Lemma load_dataset_missing fs path :
  fs path = None →
  load_dataset fs path = (Raise (FileNotFoundError path), [Exists path]).
Proof.
  intros Hf. unfold load_dataset, exists_, mbind, io_bind, tell, lift.
  by rewrite Hf.
Qed.

Lemma comprehension_cases path lines :
  (∃ values, Forall2 (λ line value, json.loads line = Ok value) lines values
             ∧ comprehension path lines
               = (Ok values, replicate (length lines) (ReadLine path)))
  ∨ (∃ good bad rest e,
        lines = good ++ bad :: rest ∧ Forall well_formed_line good
        ∧ json.loads bad = Raise e
        ∧ comprehension path lines
          = (Raise e, replicate (S (length good)) (ReadLine path))).
Proof.
  destruct (first_malformed_line lines)
    as [Hall|(good & bad & rest & -> & Hgood & [e He])].
  - left. destruct (well_formed_lines_values _ Hall) as [values Hvalues].
    exists values. split; [done|]. by apply comprehension_ok.
  - right. exists good, bad, rest, e. repeat split; try done.
    by apply comprehension_raise.
Qed.

(** X2: the load succeeds exactly when the path names a file every line
    of which the decoder accepts; the accessor then holds the decoded
    values, one per line and in the order of the lines, under the key
    ["text"]. *)
Theorem load_dataset_succeeds_iff (fs : filesystem) (path : string) (ds : Dataset) :
  outcome (load_dataset fs path) = Ok ds
  ↔ ∃ text,
      fs path = Some text
      ∧ _key ds = "text"
      ∧ Forall2 (λ line value, json.loads line = Ok value)
                (file_lines text) (_data ds).
Proof.
  split.
  - destruct (fs path) as [text|] eqn:Hf;
      [|by rewrite (load_dataset_missing _ _ Hf)].
    rewrite (load_dataset_file _ _ _ Hf). simpl.
    destruct (comprehension_cases path (file_lines text))
      as [(values & Hvalues & ->)|(good & bad & rest & e & _ & _ & _ & ->)];
      simpl; [|done].
    intros [= <-]. by exists text.
  - intros (text & Hf & Hkey & Hvalues).
    rewrite (load_dataset_well_formed _ _ _ _ Hf Hvalues). simpl.
    destruct ds as [data key]. simpl in *. by subst.
Qed.



Lemma lines_from_nil cur s :
  lines_from cur s = [] → cur = EmptyString ∧ s = EmptyString.
Proof.
  revert cur. induction s as [|c r IH]; intros cur; simpl.
  - by destruct cur.
  - repeat case_match; try done. intros [Hcur _]%IH. by destruct cur.
Qed.

(** X5: the empty accessor comes from the empty file and from no other:
    a file with any text at all either gives at least one record or makes
    the load fail. *)
Theorem load_dataset_empty_iff (fs : filesystem) (path text : string) :
  fs path = Some text →
  (outcome (load_dataset fs path) = Ok (Dataset__init__ [])
   ↔ text = EmptyString).
Proof.
  intros Hf. rewrite (load_dataset_file _ _ _ Hf). simpl. split.
  - destruct (comprehension_cases path (file_lines text))
      as [(values & Hvalues & ->)|(good & bad & rest & e & _ & _ & _ & ->)];
      simpl; [|done].
    intros [= ->]. apply Forall2_nil_inv_r in Hvalues.
    by apply lines_from_nil in Hvalues as [_ ?].
  - by intros ->.
Qed.

(** X5 on a file of one record: the accessor is not empty. *)
Lemma load_dataset_empty_iff_witness :
  outcome (load_dataset (single_file "train.jsonl" line_a) "train.jsonl")
  = Ok (Dataset__init__ [])
  ↔ line_a = EmptyString.
Proof.
  apply (load_dataset_empty_iff (single_file "train.jsonl" line_a) "train.jsonl").
  reflexivity.
Defined.

Lemma lines_from_crlf cur text :
  no_carriage_return text = true →
  lines_from cur (crlf text) = lines_from cur text.
Proof.
  revert cur. induction text as [|c r IH]; intros cur; simpl; [done|].
  intros [Hc Hr]%andb_prop. apply negb_true_iff in Hc.
  destruct (Ascii.eqb c "010") eqn:Hlf; simpl.
  - by rewrite IH.
  - by rewrite Hlf, Hc, IH.
Qed.

(** X6: line ends written as carriage return and line feed change
    nothing: the file read in text mode yields the same lines, so the load
    has the same outcome and the same effects. *)
Theorem load_dataset_crlf (fs fs' : filesystem) (path text : string) :
  fs path = Some text →
  fs' path = Some (crlf text) →
  no_carriage_return text = true →
  load_dataset fs' path = load_dataset fs path.
Proof.
  intros Hf Hf' Hcr.
  rewrite (load_dataset_file _ _ _ Hf), (load_dataset_file _ _ _ Hf').
  unfold file_lines. by rewrite lines_from_crlf.
Qed.

(** X6 on the file of the two records. *)
Lemma load_dataset_crlf_witness :
  let text := line_a +:+ LF +:+ line_b +:+ LF in
  load_dataset (single_file "train.jsonl" (crlf text)) "train.jsonl"
  = load_dataset (single_file "train.jsonl" text) "train.jsonl".
Proof.
  intros text.
  apply (load_dataset_crlf (single_file "train.jsonl" text)
           (single_file "train.jsonl" (crlf text)) "train.jsonl" text);
    vm_compute; reflexivity.
Defined.

(** ** [modify_model_with_lora] *)

Lemma getattr_freeze_inv o name v :
  getattr (freeze o) name = Ok v → ∃ v0, getattr o name = Ok v0 ∧ v = freeze v0.
Proof.
  rewrite getattr_freeze. destruct (getattr o name) as [v0|]; [|done].
  intros [= <-]. by exists v0.
Qed.

Lemma wf_layer_freeze_inv l : wf_layer (freeze l) → wf_layer l.
Proof.
  intros [[self_attn Hsa] Hmoe]. split.
  - apply getattr_freeze_inv in Hsa as (sa & Hsa & _). by exists sa.
  - intros Hhas. rewrite hasattr_freeze in Hmoe.
    destruct (Hmoe Hhas) as (moe & experts & Hm & He).
    apply getattr_freeze_inv in Hm as (moe0 & Hm & ->).
    apply getattr_freeze_inv in He as (experts0 & He & Hlist).
    destruct experts0 as [| |items]; try done.
    exists moe0, items. by split.
Qed.

Lemma experts_is_list_freeze l : experts_is_list l → experts_is_list (freeze l).
Proof.
  intros Hl moe experts Hm He.
  apply getattr_freeze_inv in Hm as (moe0 & Hm & ->).
  apply getattr_freeze_inv in He as (experts0 & He & ->).
  destruct (Hl _ _ Hm He) as [items ->]. by exists (freeze <$> items).
Qed.

Lemma getattr_raises o name e : getattr o name = Raise e → e = AttributeError name.
Proof. destruct o; simpl; repeat case_match; congruence. Qed.

Lemma outcome_bind_raise {E A B} (m : io E A) (f : A → io E B) e :
  outcome m = Raise e → outcome (m ≫= f) = Raise e.
Proof. destruct m as [[a|e'] t]; simpl; [done|]. by intros [= ->]. Qed.

(** A layer runs through the loop body exactly when it is well formed;
    otherwise one of the two accesses the body does not guard raises. *)
Lemma modify_layer_cases i l :
  experts_is_list l →
  wf_layer l
  ∨ ∃ e, outcome (modify_layer i l) = Raise e
         ∧ (e = AttributeError "self_attn" ∨ e = AttributeError "experts").
Proof.
  intros Hlist.
  destruct (getattr l "self_attn") as [self_attn|e] eqn:Hsa.
  - destruct (hasattr l "block_sparse_moe") eqn:Hhas.
    + apply hasattr_getattr in Hhas as Hm. destruct Hm as [moe Hm].
      destruct (getattr moe "experts") as [experts|e] eqn:He.
      * destruct (Hlist _ _ Hm He) as [items ->].
        left. split; [by exists self_attn|]. intros _. by exists moe, items.
      * right. exists e. pose proof (getattr_raises _ _ _ He) as ->.
        split; [|auto].
        unfold modify_layer. rewrite Hsa, io_bind_lift_ok.
        fold attention_projections feed_forward_projections.
        rewrite for_replace_if_present, io_bind_pair.
        rewrite (setattr_store _ _ _ _ Hsa), io_bind_lift_ok.
        rewrite hasattr_store, Hhas by (apply hasattr_getattr; eauto).
        rewrite getattr_store_ne, Hm, io_bind_lift_ok by done.
        rewrite for_replace_if_present, io_bind_pair.
        by rewrite getattr_experts_adapted, He.
    + left. split; [by exists self_attn|]. by rewrite Hhas.
  - right. exists e. pose proof (getattr_raises _ _ _ Hsa) as ->.
    split; [|auto]. unfold modify_layer. by rewrite Hsa.
Qed.

Lemma for_each_modify_layer_cases k layers :
  Forall experts_is_list layers →
  Forall wf_layer layers
  ∨ ∃ e, outcome (for_each k layers modify_layer) = Raise e
         ∧ (e = AttributeError "self_attn" ∨ e = AttributeError "experts").
Proof.
  intros Hlist. revert k.
  induction Hlist as [|l layers Hl _ IH]; intros k; [by left|].
  simpl. destruct (modify_layer_cases k l Hl) as [Hwf|(e & He & HQ)].
  - destruct (IH (S k)) as [Hrest|(e & He & HQ)].
    + left. by constructor.
    + right. exists e. split; [|done].
      rewrite (modify_layer_eq _ _ Hwf), io_bind_pair. simpl.
      by apply outcome_bind_raise.
  - right. exists e. split; [|done]. by apply outcome_bind_raise.
Qed.

Lemma modify_model_with_lora_cases model :
  layers_is_list model →
  (∃ layers, model_layers model = Ok layers ∧ Forall wf_layer layers)
  ∨ ∃ e, outcome (modify_model_with_lora model) = Raise e ∧ unguarded_access e.
Proof.
  intros Hlist.
  unfold modify_model_with_lora, unguarded_access. rewrite io_bind_tell.
  cbn [outcome fst].
  destruct (getattr model "model") as [inner|e] eqn:Hinner.
  - assert (getattr (freeze model) "model" = Ok (freeze inner)) as ->
      by by rewrite getattr_freeze, Hinner.
    rewrite io_bind_lift_ok.
    destruct (getattr inner "layers") as [layers|e] eqn:Hlayers.
    + destruct (Hlist _ _ Hinner Hlayers) as (items & -> & Hexperts).
      assert (getattr (freeze inner) "layers" = Ok (ModList (freeze <$> items))) as ->
        by by rewrite getattr_freeze, Hlayers.
      rewrite io_bind_lift_ok. simpl iter. rewrite io_bind_lift_ok.
      destruct (for_each_modify_layer_cases 0 (freeze <$> items))
        as [Hwf|(e & He & HQ)].
      * rewrite Forall_fmap. eapply Forall_impl; [exact Hexperts|].
        intros l. apply experts_is_list_freeze.
      * left. exists items. split.
        -- unfold model_layers. rewrite Hinner. simpl. by rewrite Hlayers.
        -- rewrite Forall_fmap in Hwf. eapply Forall_impl; [exact Hwf|].
           intros l. apply wf_layer_freeze_inv.
      * right. exists e. split; [by apply outcome_bind_raise|].
        destruct HQ as [-> | ->]; auto.
    + right. exists e. pose proof (getattr_raises _ _ _ Hlayers) as ->.
      assert (getattr (freeze inner) "layers" = Raise (AttributeError "layers")) as ->
        by by rewrite getattr_freeze, Hlayers.
      split; [done|]. auto.
  - right. exists e. pose proof (getattr_raises _ _ _ Hinner) as ->.
    assert (getattr (freeze model) "model" = Raise (AttributeError "model")) as ->
      by by rewrite getattr_freeze, Hinner.
    split; [done|]. auto.
Qed.

(** X7: on a tree in which what the injector loops over is a list, the
    injector runs to its end exactly when [model.model.layers] exists and
    every layer has an attention block and, if it has a mixture-of-experts
    block, [experts] in it.  Otherwise it raises the [AttributeError] of
    one of the four accesses it does not guard ([model], [layers],
    [self_attn], [experts]); an absent projection name never makes it
    raise. *)
Theorem modify_model_with_lora_succeeds_iff (model : obj) :
  layers_is_list model →
  ((∃ model', outcome (modify_model_with_lora model) = Ok model')
   ↔ ∃ layers, model_layers model = Ok layers ∧ Forall wf_layer layers)
  ∧ ∀ e, outcome (modify_model_with_lora model) = Raise e → unguarded_access e.
Proof.
  intros Hlist. split; [split|].
  - intros [model' Hok].
    destruct (modify_model_with_lora_cases model Hlist) as [?|(e & He & _)];
      [done|congruence].
  - intros (layers & Hlayers & Hwf). exists (adapted_model model).
    by rewrite (modify_model_with_lora_eq _ _ Hlayers Hwf).
  - intros e He.
    destruct (modify_model_with_lora_cases model Hlist)
      as [(layers & Hlayers & Hwf)|(e' & He' & HQ)].
    + rewrite (modify_model_with_lora_eq _ _ Hlayers Hwf) in He. discriminate He.
    + congruence.
Qed.

(** X7 on a model whose second layer has no attention block. *)
Lemma modify_model_with_lora_succeeds_iff_witness :
  let model := model_of [dense_layer partial_attention;
                         Module Plain [("mlp", linear_module)]] in
  ((∃ model', outcome (modify_model_with_lora model) = Ok model')
   ↔ ∃ layers, model_layers model = Ok layers ∧ Forall wf_layer layers)
  ∧ ∀ e, outcome (modify_model_with_lora model) = Raise e → unguarded_access e.
Proof.
  intros model. apply (modify_model_with_lora_succeeds_iff model).
  intros inner layers Hinner Hlayers.
  vm_compute in Hinner. injection Hinner as <-.
  vm_compute in Hlayers. injection Hlayers as <-.
  eexists. split; [reflexivity|].
  repeat (apply Forall_cons_2; [intros moe experts Hm; vm_compute in Hm; discriminate Hm|]).
  apply Forall_nil_2.
Defined.

(** *** The trainable parameters of any well-formed model *)

Lemma elem_of_dict_set_ne {V} (d : list (string * V)) k v k' x :
  k' ≠ k → (k', x) ∈ d → (k', x) ∈ dict_set d k v.
Proof.
  intros Hne. induction d as [|[k0 v0] d IH]; simpl.
  - by intros ?%elem_of_nil.
  - destruct (String.eqb_spec k0 k) as [->|Hk].
    + intros [[= -> ->]|?]%elem_of_cons; [done|by right].
    + intros [->|?]%elem_of_cons; [by left|right; by apply IH].
Qed.

Lemma elem_of_trainable_store_slot o name v path :
  hasattr o name = true →
  (∀ q, Attr name :: q ∉ trainable_parameters o) →
  path ∈ trainable_parameters (store o name v)
  ↔ (∃ q, path = Attr name :: q ∧ q ∈ trainable_parameters v)
    ∨ path ∈ trainable_parameters o.
Proof.
  intros Hhas Hslot. destruct o as [t|c attrs|items]; try done.
  change (store (Module c attrs) name v) with (Module c (dict_set attrs name v)).
  rewrite !elem_of_trainable_Module. split.
  - intros (k & x & q & Hin & -> & Hq).
    apply elem_of_dict_set in Hin as [Hin|[= -> ->]]; [|left; by exists q].
    right. by exists k, x, q.
  - intros [(q & -> & Hq)|(k & x & q & Hin & -> & Hq)].
    + exists name, v, q. split; [by apply dict_set_elem_of|done].
    + exists k, x, q. split; [|done]. apply elem_of_dict_set_ne; [|done].
      intros ->. apply (Hslot q). apply elem_of_trainable_Module.
      by exists name, x, q.
Qed.

Lemma getattr_frozen o name v :
  trainable_parameters o = [] → getattr o name = Ok v →
  trainable_parameters v = [].
Proof.
  intros Hf (c & attrs & -> & Hget)%getattr_is_module.
  eapply frozen_elem; [exact Hf|]. by apply dict_get_elem_of.
Qed.

Lemma frozen_items items :
  trainable_parameters (ModList items) = [] →
  Forall (λ e, trainable_parameters e = []) items.
Proof.
  intros Hf. apply Forall_lookup. intros j x Hj.
  apply elem_of_nil_inv. intros q Hq.
  assert (Item j :: q ∈ trainable_parameters (ModList items)) as H
    by (apply elem_of_trainable_ModList; by exists j, x, q).
  rewrite Hf in H. by apply elem_of_nil in H.
Qed.

Lemma elem_of_present target names proj :
  proj ∈ present target names ↔ proj ∈ names ∧ hasattr target proj = true.
Proof. unfold present. rewrite list_elem_of_filter. tauto. Qed.

Lemma elem_of_SetAttr owner owner' proj (names : list string) :
  SetAttr owner proj ∈ SetAttr owner' <$> names ↔ owner = owner' ∧ proj ∈ names.
Proof.
  rewrite list_elem_of_fmap. split.
  - by intros (p & [= -> ->] & Hp).
  - intros [-> Hp]. by exists proj.
Qed.

Lemma elem_of_experts_log i experts owner proj :
  SetAttr owner proj
    ∈ mjoin (imap (λ j e, SetAttr (Expert i j) <$> present e projections) experts)
  ↔ ∃ j e, experts !! j = Some e ∧ owner = Expert i j
           ∧ proj ∈ present e projections.
Proof.
  rewrite list_elem_of_join. split.
  - intros (evs & Hev & (j & e & -> & Hj)%elem_of_lookup_imap).
    apply elem_of_SetAttr in Hev as [-> Hp]. by exists j, e.
  - intros (j & e & Hj & -> & Hp). eexists.
    split; [|apply elem_of_lookup_imap; by exists j, e].
    by apply elem_of_SetAttr.
Qed.

Lemma elem_of_trainable_present names target path :
  NoDup names → trainable_parameters target = [] →
  path ∈ trainable_parameters (adapted names target)
  ↔ ∃ proj ab, proj ∈ present target names
               ∧ (ab = "lora_a" ∨ ab = "lora_b") ∧ path = [Attr proj; Attr ab].
Proof.
  intros Hnd Hf. rewrite elem_of_trainable_adapted by done. split.
  - intros (proj & ab & Hp & Hhas & Hab & ->). exists proj, ab.
    by rewrite elem_of_present.
  - intros (proj & ab & [Hp Hhas]%elem_of_present & Hab & ->). by exists proj, ab.
Qed.

Lemma elem_of_trainable_experts experts path :
  Forall (λ e, trainable_parameters e = []) experts →
  path ∈ trainable_parameters (ModList (adapted projections <$> experts))
  ↔ ∃ j e proj ab, experts !! j = Some e ∧ proj ∈ present e projections
                   ∧ (ab = "lora_a" ∨ ab = "lora_b")
                   ∧ path = [Item j; Attr proj; Attr ab].
Proof.
  intros Hf. rewrite elem_of_trainable_ModList. split.
  - intros (j & x & q & Hj & -> & Hq).
    apply list_lookup_fmap_Some in Hj as (e & -> & He).
    apply elem_of_trainable_present in Hq as (proj & ab & Hp & Hab & ->);
      [|apply NoDup_projections|exact (Forall_lookup_1 _ _ _ _ Hf He)].
    by exists j, e, proj, ab.
  - intros (j & e & proj & ab & He & Hp & Hab & ->).
    exists j, (adapted projections e), [Attr proj; Attr ab].
    split; [by rewrite list_lookup_fmap, He|]. split; [done|].
    apply elem_of_trainable_present;
      [apply NoDup_projections|exact (Forall_lookup_1 _ _ _ _ Hf He)|].
    by exists proj, ab.
Qed.

Lemma elem_of_trainable_adapted_moe moe experts path :
  trainable_parameters moe = [] →
  getattr moe "experts" = Ok (ModList experts) →
  path ∈ trainable_parameters (adapted_moe moe experts)
  ↔ (∃ proj ab, proj ∈ present moe feed_forward_projections
                ∧ (ab = "lora_a" ∨ ab = "lora_b")
                ∧ path = [Attr proj; Attr ab])
    ∨ (∃ j e proj ab, experts !! j = Some e ∧ proj ∈ present e projections
                      ∧ (ab = "lora_a" ∨ ab = "lora_b")
                      ∧ path = [Attr "experts"; Item j; Attr proj; Attr ab]).
Proof.
  intros Hf He. unfold adapted_moe.
  pose proof (frozen_items _ (getattr_frozen _ _ _ Hf He)) as Hfe.
  rewrite elem_of_trainable_store_slot.
  - rewrite elem_of_trainable_present
      by (apply NoDup_feed_forward_projections || done).
    split.
    + intros [(q & -> & Hq)|?]; [right|by left].
      apply elem_of_trainable_experts in Hq
        as (j & e & proj & ab & ? & ? & ? & ->); [|done].
      by exists j, e, proj, ab.
    + intros [?|(j & e & proj & ab & ? & ? & ? & ->)]; [by right|left].
      eexists. split; [done|]. apply elem_of_trainable_experts; [done|].
      by exists j, e, proj, ab.
  - rewrite hasattr_adapted. apply hasattr_getattr. eauto.
  - intros q Hq.
    apply elem_of_trainable_present in Hq as (proj & ab & [Hp _]%elem_of_present & _ & Heq);
      [|apply NoDup_feed_forward_projections|done].
    injection Heq as <- _. by apply experts_not_feed_forward in Hp.
Qed.

Lemma site_steps_layer owner :
  site_steps owner = Item (site_layer owner) :: tail (site_steps owner).
Proof. by destruct owner. Qed.

Lemma elem_of_trainable_adapted_layer i l q :
  wf_layer l → trainable_parameters l = [] →
  q ∈ trainable_parameters (adapted_layer l)
  ↔ ∃ owner proj ab,
      SetAttr owner proj ∈ layer_log i l
      ∧ (ab = "lora_a" ∨ ab = "lora_b")
      ∧ Item i :: q = site_steps owner ++ [Attr proj; Attr ab].
Proof.
  intros [[self_attn Hsa] Hmoe] Hf.
  pose proof (getattr_frozen _ _ _ Hf Hsa) as Hfsa.
  assert (hasattr l "self_attn" = true) as Hhsa by (apply hasattr_getattr; eauto).
  assert (∀ p, p ∈ trainable_parameters
                     (store l "self_attn" (adapted attention_projections self_attn))
               ↔ ∃ proj ab, proj ∈ present self_attn attention_projections
                            ∧ (ab = "lora_a" ∨ ab = "lora_b")
                            ∧ p = [Attr "self_attn"; Attr proj; Attr ab]) as Hattn.
  { intros p. rewrite elem_of_trainable_store by done. split.
    - intros (p' & -> & Hp).
      apply elem_of_trainable_present in Hp as (proj & ab & ? & ? & ->);
        [|apply NoDup_attention_projections|done].
      by exists proj, ab.
    - intros (proj & ab & ? & ? & ->). eexists. split; [done|].
      apply elem_of_trainable_present; [apply NoDup_attention_projections|done|].
      by exists proj, ab. }
  unfold adapted_layer, layer_log. rewrite Hsa.
  destruct (hasattr l "block_sparse_moe") eqn:Hhas.
  - destruct (Hmoe eq_refl) as (moe & experts & Hm & He). rewrite Hm, He.
    pose proof (getattr_frozen _ _ _ Hf Hm) as Hfm.
    rewrite elem_of_trainable_store_slot, Hattn.
    + split.
      * intros [(q' & -> & Hq)|(proj & ab & Hp & Hab & ->)].
        -- apply elem_of_trainable_adapted_moe in Hq
             as [(proj & ab & Hp & Hab & ->)|(j & e & proj & ab & Hj & Hp & Hab & ->)];
             [| |done..].
           ++ exists (BlockSparseMoe i), proj, ab. split; [|done].
              rewrite !elem_of_app. right. left. by apply elem_of_SetAttr.
           ++ exists (Expert i j), proj, ab. split; [|done].
              rewrite !elem_of_app. right. right. apply elem_of_experts_log.
              by exists j, e.
        -- exists (SelfAttn i), proj, ab. split; [|done].
           rewrite !elem_of_app. left. by apply elem_of_SetAttr.
      * intros (owner & proj & ab & Hin & Hab & Heq).
        rewrite !elem_of_app in Hin. destruct Hin as [Hin|[Hin|Hin]].
        -- apply elem_of_SetAttr in Hin as [-> Hp]. injection Heq as ->.
           right. by exists proj, ab.
        -- apply elem_of_SetAttr in Hin as [-> Hp]. injection Heq as ->.
           left. eexists. split; [done|].
           apply elem_of_trainable_adapted_moe; [done..|]. left. by exists proj, ab.
        -- apply elem_of_experts_log in Hin as (j & e & Hj & -> & Hp).
           injection Heq as ->.
           left. eexists. split; [done|].
           apply elem_of_trainable_adapted_moe; [done..|]. right.
           by exists j, e, proj, ab.
    + by rewrite hasattr_store.
    + intros q' Hq'. apply Hattn in Hq' as (proj & ab & _ & _ & Heq). discriminate Heq.
  - apply hasattr_false_getattr in Hhas. rewrite Hhas, app_nil_r, Hattn. split.
    + intros (proj & ab & Hp & Hab & ->). exists (SelfAttn i), proj, ab.
      split; [|done]. by apply elem_of_SetAttr.
    + intros (owner & proj & ab & [-> Hp]%elem_of_SetAttr & Hab & Heq).
      injection Heq as ->. by exists proj, ab.
Qed.

Lemma elem_of_model_log layers owner proj :
  SetAttr owner proj ∈ model_log layers
  ↔ ∃ l, layers !! site_layer owner = Some l
         ∧ SetAttr owner proj ∈ layer_log (site_layer owner) l.
Proof.
  unfold model_log. rewrite elem_of_cons, list_elem_of_join. split.
  - intros [?|(evs & Hev & (i & l & -> & Hl)%elem_of_lookup_imap)]; [done|].
    pose proof (layer_log_layer i l) as Hall. rewrite Forall_forall in Hall.
    pose proof (Hall _ Hev) as Hi. injection Hi as <-. by exists l.
  - intros (l & Hl & Hev). right. eexists. split; [exact Hev|].
    apply elem_of_lookup_imap. by exists (site_layer owner), l.
Qed.

Lemma elem_of_trainable_adapted_model model layers path :
  model_layers model = Ok layers →
  Forall wf_layer layers →
  path ∈ trainable_parameters (adapted_model model)
  ↔ ∃ owner proj ab,
      SetAttr owner proj ∈ model_log layers
      ∧ (ab = "lora_a" ∨ ab = "lora_b")
      ∧ path = site_path owner ++ [Attr proj; Attr ab].
Proof.
  intros (inner & Hinner & Hlayers)%model_layers_inv Hwf.
  assert (getattr (freeze model) "model" = Ok (freeze inner)) as Hfm
    by by rewrite getattr_freeze, Hinner.
  assert (getattr (freeze inner) "layers" = Ok (ModList (freeze <$> layers))) as Hfl
    by by rewrite getattr_freeze, Hlayers.
  unfold adapted_model. rewrite Hfm, Hfl.
  rewrite elem_of_trainable_store
    by (apply trainable_freeze || (apply hasattr_getattr; eauto)).
  split.
  - intros (q & -> & Hq).
    apply elem_of_trainable_store in Hq as (q' & -> & Hq');
      [|apply trainable_freeze|apply hasattr_getattr; eauto].
    apply elem_of_trainable_ModList in Hq' as (i & x & q & Hi & -> & Hq).
    rewrite !list_lookup_fmap in Hi.
    destruct (layers !! i) as [l|] eqn:Hl; [|done]. injection Hi as <-.
    apply (elem_of_trainable_adapted_layer i) in Hq
      as (owner & proj & ab & Hin & Hab & Heq);
      [|apply wf_layer_freeze; exact (Forall_lookup_1 _ _ _ _ Hwf Hl)
       |apply trainable_freeze].
    rewrite layer_log_freeze in Hin.
    exists owner, proj, ab. split; [|split; [done|]].
    + pose proof (layer_log_layer i l) as Hall. rewrite Forall_forall in Hall.
      pose proof (Hall _ Hin) as Hi. injection Hi as <-.
      apply elem_of_model_log. by exists l.
    + unfold site_path, layers_path. simpl. by rewrite Heq.
  - intros (owner & proj & ab & (l & Hl & Hin)%elem_of_model_log & Hab & ->).
    unfold site_path, layers_path. rewrite site_steps_layer. simpl.
    eexists. split; [done|].
    apply elem_of_trainable_store; [apply trainable_freeze|apply hasattr_getattr; eauto|].
    eexists. split; [done|].
    apply elem_of_trainable_ModList.
    exists (site_layer owner), (adapted_layer (freeze l)), (tail (site_steps owner) ++ [Attr proj; Attr ab]).
    split; [by rewrite !list_lookup_fmap, Hl|]. split; [done|].
    apply (elem_of_trainable_adapted_layer (site_layer owner));
      [apply wf_layer_freeze; exact (Forall_lookup_1 _ _ _ _ Hwf Hl)
      |apply trainable_freeze|].
    exists owner, proj, ab. rewrite layer_log_freeze.
    split; [done|]. split; [done|]. by rewrite (site_steps_layer owner) at 2.
Qed.

(** X8: whatever the layers hold, as long as the injector runs to its
    end, the trainable parameters of the tree it leaves are the two
    low-rank arrays of the wrapper of each replacement it made, at the
    place of that replacement, and nothing else: nothing of the base
    model, no attribute the loops do not name, and no attribute of a
    mixture-of-experts block under an attention name. *)
Theorem trainable_parameters_are_the_adapters (model : obj) (layers : list obj) :
  model_layers model = Ok layers →
  Forall wf_layer layers →
  ∃ model' log,
    modify_model_with_lora model = (Ok model', log)
    ∧ ∀ path,
        path ∈ trainable_parameters model'
        ↔ ∃ owner proj ab,
            SetAttr owner proj ∈ log
            ∧ (ab = "lora_a" ∨ ab = "lora_b")
            ∧ path = site_path owner ++ [Attr proj; Attr ab].
Proof.
  intros Hlayers Hwf. exists (adapted_model model), (model_log layers).
  split; [by apply modify_model_with_lora_eq|].
  intros path. by apply elem_of_trainable_adapted_model.
Qed.

Lemma wf_dense_layer self_attn : wf_layer (dense_layer self_attn).
Proof. split; [by exists self_attn|]. intros H. discriminate H. Qed.

Lemma wf_sparse_layer : wf_layer sparse_layer.
Proof.
  split; [by exists full_attention|]. intros _.
  exists moe_module, [expert_module; expert_module]. split; reflexivity.
Qed.

(** X8 on a model of a dense layer and a mixture-of-experts layer. *)
Lemma trainable_parameters_are_the_adapters_witness :
  let model := model_of [dense_layer partial_attention; sparse_layer] in
  ∃ model' log,
    modify_model_with_lora model = (Ok model', log)
    ∧ ∀ path,
        path ∈ trainable_parameters model'
        ↔ ∃ owner proj ab,
            SetAttr owner proj ∈ log
            ∧ (ab = "lora_a" ∨ ab = "lora_b")
            ∧ path = site_path owner ++ [Attr proj; Attr ab].
Proof.
  intros model.
  apply (trainable_parameters_are_the_adapters
           model [dense_layer partial_attention; sparse_layer]);
    [reflexivity|].
  apply Forall_cons_2; [apply wf_dense_layer|].
  apply Forall_cons_2; [apply wf_sparse_layer|apply Forall_nil_2].
Defined.

(** *** A run that replaces nothing *)

Lemma dict_set_same {V} (d : list (string * V)) k v :
  dict_get d k = Some v → dict_set d k v = d.
Proof.
  induction d as [|[k0 v0] d IH]; simpl; [done|].
  destruct (String.eqb_spec k0 k) as [->|Hk].
  - by intros [= ->].
  - intros H. by rewrite IH.
Qed.

Lemma store_same o name v : getattr o name = Ok v → store o name v = o.
Proof.
  intros (c & attrs & -> & Hget)%getattr_is_module. simpl.
  by rewrite dict_set_same.
Qed.

Lemma adapted_absent names target :
  present target names = [] → adapted names target = target.
Proof.
  induction names as [|proj names IH]; [done|].
  unfold present. rewrite filter_cons. case_decide as Hhas; [done|].
  intros Hnil. simpl.
  assert (wrapped target proj = target) as ->; [|by apply IH].
  unfold wrapped. apply not_true_is_false, hasattr_false_getattr in Hhas.
  by rewrite Hhas.
Qed.

Lemma join_imap_nil {A B} (f : nat → A → list B) xs :
  mjoin (imap f xs) = [] → ∀ j x, xs !! j = Some x → f j x = [].
Proof.
  intros Hnil j x Hj. apply elem_of_nil_inv. intros b Hb.
  assert (b ∈ mjoin (imap f xs)) as H.
  { apply list_elem_of_join. exists (f j x). split; [done|].
    apply elem_of_lookup_imap. by exists j, x. }
  rewrite Hnil in H. by apply elem_of_nil in H.
Qed.

Lemma adapted_layer_silent i l :
  wf_layer l → layer_log i l = [] → adapted_layer l = l.
Proof.
  intros [[self_attn Hsa] Hmoe]. unfold layer_log, adapted_layer. rewrite Hsa.
  intros [Hatt Hrest]%app_nil.
  apply fmap_nil_inv in Hatt. rewrite (adapted_absent _ _ Hatt).
  rewrite (store_same _ _ _ Hsa).
  destruct (hasattr l "block_sparse_moe") eqn:Hhas.
  - destruct (Hmoe eq_refl) as (moe & experts & Hm & He). rewrite Hm, He in *.
    apply app_nil in Hrest as [Hff Hexp]. apply fmap_nil_inv in Hff.
    unfold adapted_moe. rewrite (adapted_absent _ _ Hff).
    assert (adapted projections <$> experts = experts) as ->.
    { apply list_eq. intros j. rewrite list_lookup_fmap.
      destruct (experts !! j) as [e|] eqn:Hj; [|done].
      pose proof (join_imap_nil _ _ Hexp j e Hj) as H. apply fmap_nil_inv in H.
      change (Some (adapted projections e) = Some e).
      by rewrite (adapted_absent _ _ H). }
    rewrite (store_same _ _ _ He). by apply store_same.
  - apply hasattr_false_getattr in Hhas. by rewrite Hhas.
Qed.

Lemma adapted_model_silent model layers :
  model_layers model = Ok layers →
  Forall wf_layer layers →
  model_log layers = [Froze] →
  adapted_model model = freeze model.
Proof.
  intros (inner & Hinner & Hlayers)%model_layers_inv Hwf Hlog.
  assert (getattr (freeze model) "model" = Ok (freeze inner)) as Hfm
    by by rewrite getattr_freeze, Hinner.
  assert (getattr (freeze inner) "layers" = Ok (ModList (freeze <$> layers))) as Hfl
    by by rewrite getattr_freeze, Hlayers.
  unfold adapted_model. rewrite Hfm, Hfl.
  unfold model_log in Hlog. injection Hlog as Hlog.
  assert (adapted_layer <$> (freeze <$> layers) = freeze <$> layers) as ->.
  { apply list_eq. intros i. rewrite !list_lookup_fmap.
    destruct (layers !! i) as [l|] eqn:Hl; [|done].
    change (Some (adapted_layer (freeze l)) = Some (freeze l)). f_equal.
    apply (adapted_layer_silent i);
      [apply wf_layer_freeze; exact (Forall_lookup_1 _ _ _ _ Hwf Hl)|].
    rewrite layer_log_freeze. exact (join_imap_nil _ _ Hlog i l Hl). }
  rewrite (store_same _ _ _ Hfl). by apply store_same.
Qed.

(** X9: a run to the end that finds none of the names it looks for says
    nothing and leaves the model as [freeze] alone would, with no trainable
    parameter at all; and only such a run does: the tree is the frozen
    one, or has no trainable parameter, exactly when nothing was
    replaced. *)
Theorem no_replacement_iff_frozen (model : obj) (layers : list obj) :
  model_layers model = Ok layers →
  Forall wf_layer layers →
  ∃ model' log,
    modify_model_with_lora model = (Ok model', log)
    ∧ (log = [Froze] ↔ model' = freeze model)
    ∧ (log = [Froze] ↔ trainable_parameters model' = []).
Proof.
  intros Hlayers Hwf. exists (adapted_model model), (model_log layers).
  split; [by apply modify_model_with_lora_eq|].
  assert (trainable_parameters (adapted_model model) = [] →
          model_log layers = [Froze]) as Hback.
  { intros Hnone. unfold model_log. f_equal.
    destruct (mjoin (imap layer_log layers)) as [|ev rest] eqn:Hlog; [done|].
    exfalso.
    assert (ev ∈ model_log layers) as Hev
      by (unfold model_log; rewrite Hlog; right; by left).
    destruct ev as [|owner proj].
    - assert (Froze ∈ mjoin (imap layer_log layers)) as Hin
        by (rewrite Hlog; by left).
      apply list_elem_of_join in Hin
        as (evs & Hin & (i & l & -> & _)%elem_of_lookup_imap).
      pose proof (layer_log_layer i l) as Hall. rewrite Forall_forall in Hall.
      by pose proof (Hall _ Hin).
    - assert (site_path owner ++ [Attr proj; Attr "lora_a"]
                ∈ trainable_parameters (adapted_model model)) as Hin.
      { apply (elem_of_trainable_adapted_model _ layers); [done..|].
        exists owner, proj, "lora_a". auto. }
      rewrite Hnone in Hin. by apply elem_of_nil in Hin. }
  split; split.
  - by apply adapted_model_silent.
  - intros Heq. apply Hback. rewrite Heq. apply trainable_freeze.
  - intros Hlog. rewrite (adapted_model_silent _ _ Hlayers Hwf Hlog).
    apply trainable_freeze.
  - exact Hback.
Qed.

(** X9 on a model whose only layer has an attention block with a fused
    projection and none of the four names. *)
Lemma no_replacement_iff_frozen_witness :
  let fused := Module Plain [("qkv_proj", linear_module)] in
  let model := model_of [dense_layer fused] in
  ∃ model' log,
    modify_model_with_lora model = (Ok model', log)
    ∧ (log = [Froze] ↔ model' = freeze model)
    ∧ (log = [Froze] ↔ trainable_parameters model' = []).
Proof.
  intros fused model.
  apply (no_replacement_iff_frozen model [dense_layer fused]); [reflexivity|].
  apply Forall_cons_2; [apply wf_dense_layer|apply Forall_nil_2].
Defined.

(** *** The log of any run *)

Lemma effects_bind {E A B} (P : E → Prop) (m : io E A) (f : A → io E B) :
  Forall P (effects m) → (∀ a, Forall P (effects (f a))) →
  Forall P (effects (m ≫= f)).
Proof.
  destruct m as [[a|e] t]; simpl; [|done]. intros Ht Hf.
  specialize (Hf a). destruct (f a) as [r t']. simpl in *.
  apply Forall_app. by split.
Qed.

Lemma effects_for_ {E S A} (P : E → Prop) (xs : list A) (body : S → A → io E S) s :
  (∀ s x, x ∈ xs → Forall P (effects (body s x))) →
  Forall P (effects (for_ xs body s)).
Proof.
  revert s. induction xs as [|x xs IH]; intros s Hbody; [apply Forall_nil_2|].
  simpl. apply effects_bind; [apply Hbody; by left|].
  intros s'. apply IH. intros s'' y Hy. apply Hbody. by right.
Qed.

Lemma effects_for_each {E A} (P : E → Prop) i (xs : list A) (body : nat → A → io E A) :
  (∀ j x, Forall P (effects (body j x))) →
  Forall P (effects (for_each i xs body)).
Proof.
  intros Hbody. revert i. induction xs as [|x xs IH]; intros i; [apply Forall_nil_2|].
  simpl. apply effects_bind; [apply Hbody|]. intros x'.
  apply effects_bind; [apply IH|]. intros xs'. apply Forall_nil_2.
Qed.

Lemma effects_replace_if_present owner target proj :
  proj ∈ site_names owner →
  Forall replacement (effects (replace_if_present owner target proj)).
Proof.
  intros Hproj. rewrite replace_if_present_eq. simpl.
  destruct (hasattr target proj); [|apply Forall_nil_2].
  apply Forall_cons_2; [done|apply Forall_nil_2].
Qed.

Lemma effects_names owner target (names : list string) :
  names = site_names owner →
  Forall replacement (effects (for_ names (replace_if_present owner) target)).
Proof.
  intros ->. apply effects_for_. intros s proj Hproj.
  by apply effects_replace_if_present.
Qed.

Lemma effects_lift {E A} (P : E → Prop) (r : result A) :
  Forall P (effects (lift (E:=E) r)).
Proof. apply Forall_nil_2. Qed.

Lemma effects_modify_layer i l : Forall replacement (effects (modify_layer i l)).
Proof.
  unfold modify_layer.
  apply effects_bind; [apply effects_lift|]. intros self_attn.
  apply effects_bind; [by apply effects_names|]. intros self_attn'.
  apply effects_bind; [apply effects_lift|]. intros l'.
  destruct (hasattr l' "block_sparse_moe"); [|apply Forall_nil_2].
  apply effects_bind; [apply effects_lift|]. intros moe.
  apply effects_bind; [by apply effects_names|]. intros moe'.
  apply effects_bind; [apply effects_lift|]. intros experts.
  apply effects_bind; [apply effects_lift|]. intros items.
  apply effects_bind.
  - apply effects_for_each. intros j e. by apply effects_names.
  - intros items'. apply effects_bind; [apply effects_lift|]. intros moe''.
    apply effects_lift.
Qed.

(** X10: whether it returns or raises, the injector freezes the model
    once, before anything else, and every other thing it does is the
    replacement, at an attention block, of one of the four attention
    names, at a mixture-of-experts block, of one of the three feed-forward
    names, or at an expert, of one of the seven names. *)
Theorem modify_model_with_lora_log (model : obj) :
  ∃ log,
    effects (modify_model_with_lora model) = Froze :: log
    ∧ Forall replacement log.
Proof.
  unfold modify_model_with_lora. rewrite io_bind_tell.
  eexists. split; [reflexivity|]. cbn [effects snd].
  apply effects_bind; [apply effects_lift|]. intros inner.
  apply effects_bind; [apply effects_lift|]. intros layers.
  apply effects_bind; [apply effects_lift|]. intros items.
  apply effects_bind.
  - apply effects_for_each. intros j l. apply effects_modify_layer.
  - intros items'. apply effects_bind; [apply effects_lift|]. intros inner'.
    apply effects_lift.
Qed.

(** *** A run that raises *)

Lemma for_each_raise {E A} (body : nat → A → io E A) (f : A → A)
    (g : nat → A → list E) (k : nat) (good : list A) (bad : A) (rest : list A)
    (e : exn) (t : list E) :
  (∀ j x, x ∈ good → body j x = (Ok (f x), g j x)) →
  body (k + length good)%nat bad = (Raise e, t) →
  for_each k (good ++ bad :: rest) body
  = (Raise e, mjoin (imap (λ j, g (k + j)%nat) good) ++ t).
Proof.
  revert k. induction good as [|x good IH]; intros k Hgood Hbad.
  - simpl in *. rewrite Nat.add_0_r in Hbad. by rewrite Hbad.
  - simpl. rewrite Hgood by by left. rewrite io_bind_pair.
    rewrite (IH (S k)).
    + simpl. rewrite Nat.add_0_r, <- app_assoc. do 4 f_equal.
      apply imap_ext. intros j y _. simpl. by rewrite Nat.add_succ_r.
    + intros j y Hy. apply Hgood. by right.
    + simpl in Hbad. by rewrite Nat.add_succ_r in Hbad.
Qed.

(** X11: the injector is not atomic.  When the layer of index [k] is the
    first that lacks an attention block, or has a mixture-of-experts block
    without [experts], the injector raises the [AttributeError] of that
    access only after it has frozen the model and made every replacement
    of the [k] layers before it. *)
Theorem modify_model_with_lora_partial (model : obj) (good : list obj)
    (bad : obj) (rest : list obj) :
  model_layers model = Ok (good ++ bad :: rest) →
  Forall wf_layer good →
  experts_is_list bad →
  ¬ wf_layer bad →
  ∃ e log,
    modify_model_with_lora model
    = (Raise e, Froze :: mjoin (imap layer_log good) ++ log)
    ∧ (e = AttributeError "self_attn" ∨ e = AttributeError "experts")
    ∧ Forall replacement log.
Proof.
  intros (inner & Hinner & Hlayers)%model_layers_inv Hwf Hlist Hbad.
  destruct (modify_layer_cases (length good) (freeze bad))
    as [Hwfbad|(e & He & Hattr)]; [by apply experts_is_list_freeze| |].
  { by apply wf_layer_freeze_inv in Hwfbad. }
  exists e, (effects (modify_layer (length good) (freeze bad))).
  split; [|split; [done|apply effects_modify_layer]].
  unfold modify_model_with_lora.
  rewrite io_bind_tell, getattr_freeze, Hinner. simpl fmap.
  rewrite io_bind_lift_ok, getattr_freeze, Hlayers. simpl fmap.
  rewrite io_bind_lift_ok. simpl iter. rewrite io_bind_lift_ok.
  rewrite fmap_app, fmap_cons.
  rewrite (for_each_raise _ adapted_layer layer_log 0 _ _ _ e
             (effects (modify_layer (length good) (freeze bad)))).
  - simpl. rewrite imap_fmap. do 4 f_equal.
    apply imap_ext. intros j l _. simpl. apply layer_log_freeze.
  - intros j l (l0 & -> & Hl0)%list_elem_of_fmap.
    apply modify_layer_eq, wf_layer_freeze. rewrite Forall_forall in Hwf. auto.
  - rewrite length_fmap. simpl.
    destruct (modify_layer (length good) (freeze bad)) as [r t].
    simpl in He. by rewrite He.
Qed.

(** X11 on a model whose second layer has no attention block: the two
    replacements of the first layer are made before the exception. *)
Lemma modify_model_with_lora_partial_witness :
  let good := [dense_layer partial_attention] in
  let bad := Module Plain [("mlp", linear_module)] in
  ∃ e log,
    modify_model_with_lora (model_of (good ++ [bad]))
    = (Raise e, Froze :: mjoin (imap layer_log good) ++ log)
    ∧ (e = AttributeError "self_attn" ∨ e = AttributeError "experts")
    ∧ Forall replacement log.
Proof.
  intros good bad.
  apply (modify_model_with_lora_partial (model_of (good ++ [bad])) good bad []).
  - reflexivity.
  - apply Forall_cons_2; [apply wf_dense_layer|apply Forall_nil_2].
  - intros moe experts Hm. vm_compute in Hm. discriminate Hm.
  - intros [[self_attn Hsa] _]. vm_compute in Hsa. discriminate Hsa.
Defined.

(** *** No attribute is replaced twice *)

Lemma NoDup_join_imap {A B} (key : B → option nat) (f : nat → A → list B) xs :
  (∀ j x, NoDup (f j x)) →
  (∀ j x b, b ∈ f j x → key b = Some j) →
  NoDup (mjoin (imap f xs)).
Proof.
  revert key f. induction xs as [|x xs IH]; intros key f Hnd Hkey.
  - apply NoDup_nil_2.
  - rewrite imap_cons, mjoin_cons. apply NoDup_app. split; [apply Hnd|]. split.
    + intros b Hb (bs & Hin & (j & y & -> & _)%elem_of_lookup_imap)%list_elem_of_join.
      pose proof (Hkey _ _ _ Hb). pose proof (Hkey _ _ _ Hin). simpl in *. congruence.
    + apply (IH (λ b, match key b with Some (S n) => Some n | _ => None end)).
      * intros j y. apply Hnd.
      * intros j y b Hb. simpl in Hb. by rewrite (Hkey _ _ _ Hb).
Qed.

Lemma NoDup_SetAttr owner target names :
  NoDup names → NoDup (SetAttr owner <$> present target names).
Proof.
  intros Hnd. apply NoDup_fmap_2; [by intros p q [= ->]|].
  by apply NoDup_filter.
Qed.

Lemma NoDup_layer_log i l : NoDup (layer_log i l).
Proof.
  unfold layer_log. destruct (getattr l "self_attn") as [self_attn|]; [|apply NoDup_nil_2].
  apply NoDup_app. split; [apply NoDup_SetAttr, NoDup_attention_projections|].
  split.
  - intros ev (p & -> & _)%list_elem_of_fmap Hin.
    destruct (getattr l "block_sparse_moe") as [moe|]; [|by apply elem_of_nil in Hin].
    apply elem_of_app in Hin as [Hin|Hin].
    + by apply elem_of_SetAttr in Hin as [? _].
    + destruct (getattr moe "experts") as [[| |experts]|];
        try by apply elem_of_nil in Hin.
      by apply elem_of_experts_log in Hin as (j & e & _ & ? & _).
  - destruct (getattr l "block_sparse_moe") as [moe|]; [|apply NoDup_nil_2].
    apply NoDup_app. split; [apply NoDup_SetAttr, NoDup_feed_forward_projections|].
    split.
    + intros ev (p & -> & _)%list_elem_of_fmap Hin.
      destruct (getattr moe "experts") as [[| |experts]|];
        try by apply elem_of_nil in Hin.
      by apply elem_of_experts_log in Hin as (j & e & _ & ? & _).
    + destruct (getattr moe "experts") as [[| |experts]|]; try apply NoDup_nil_2.
      apply (NoDup_join_imap event_expert).
      * intros j e. apply NoDup_SetAttr, NoDup_projections.
      * by intros j e ev (p & -> & _)%list_elem_of_fmap.
Qed.

(** X12: a run to the end replaces no attribute twice: no two events of
    its log are the same, and no two of its replacements have the same
    site and name, so no wrapper is wrapped again. *)
Theorem modify_model_with_lora_once (model : obj) (layers : list obj) :
  model_layers model = Ok layers →
  Forall wf_layer layers →
  NoDup (effects (modify_model_with_lora model))
  ∧ NoDup (replacements (effects (modify_model_with_lora model))).
Proof.
  intros Hlayers Hwf. rewrite (modify_model_with_lora_eq _ _ Hlayers Hwf).
  cbn [effects snd]. unfold model_log.
  assert (NoDup (mjoin (imap layer_log layers))) as Hnd.
  { apply (NoDup_join_imap event_layer); [apply NoDup_layer_log|].
    intros j l ev Hev. pose proof (layer_log_layer j l) as Hall.
    rewrite Forall_forall in Hall. by apply Hall. }
  split.
  - apply NoDup_cons. split; [|done].
    intros (evs & Hin & (i & l & -> & _)%elem_of_lookup_imap)%list_elem_of_join.
    pose proof (layer_log_layer i l) as Hall. rewrite Forall_forall in Hall.
    by pose proof (Hall _ Hin).
  - unfold replacements. simpl omap.
    revert Hnd. generalize (mjoin (imap layer_log layers)).
    induction l as [|ev evs IH]; [intros; apply NoDup_nil_2|].
    intros [Hev Hnd]%NoDup_cons. destruct ev as [|owner proj]; simpl; [by apply IH|].
    apply NoDup_cons. split; [|by apply IH].
    intros (ev & Heq & Hin)%list_elem_of_omap.
    destruct ev as [|owner' proj']; simplify_eq. done.
Qed.

(** X12 on a model of a dense layer and a mixture-of-experts layer. *)
Lemma modify_model_with_lora_once_witness :
  let model := model_of [dense_layer partial_attention; sparse_layer] in
  NoDup (effects (modify_model_with_lora model))
  ∧ NoDup (replacements (effects (modify_model_with_lora model))).
Proof.
  intros model.
  apply (modify_model_with_lora_once
           model [dense_layer partial_attention; sparse_layer]);
    [reflexivity|].
  apply Forall_cons_2; [apply wf_dense_layer|].
  apply Forall_cons_2; [apply wf_sparse_layer|apply Forall_nil_2].
Defined.

(** ** [setup] and the run of the notebook *)

Lemma effects_load_dataset_path fs path :
  Forall (λ e, fs_event_path e = path) (effects (load_dataset fs path)).
Proof.
  destruct (fs path) as [text|] eqn:Hf.
  - rewrite (load_dataset_file _ _ _ Hf). cbn [effects snd].
    repeat (apply Forall_cons_2; [done|]).
    apply Forall_app. split; [|by apply Forall_cons_2].
    destruct (comprehension_cases path (file_lines text))
      as [(values & _ & ->)|(good & bad & rest & e & _ & _ & _ & ->)];
      cbn [effects snd]; by apply Forall_replicate.
  - rewrite (load_dataset_missing _ _ Hf). by apply Forall_cons_2.
Qed.

(** X13: [setup] returns exactly when the loader of the model and the two
    runs of [load_dataset] return, and then it returns what they
    returned; otherwise it raises the exception of the first of the three
    that raises, in the order model, training data, validation data. *)
Theorem setup_outcome {T} (load : string → result (obj * T)) (fs : filesystem) :
  (∀ model tokenizer train_dst valid_dst,
     outcome (setup load fs) = Ok (model, tokenizer, train_dst, valid_dst)
     ↔ load model_path = Ok (model, tokenizer)
       ∧ outcome (load_dataset fs train_dataset_path) = Ok train_dst
       ∧ outcome (load_dataset fs val_dataset_path) = Ok valid_dst)
  ∧ (∀ e,
       outcome (setup load fs) = Raise e
       ↔ load model_path = Raise e
         ∨ (∃ loaded, load model_path = Ok loaded
                      ∧ outcome (load_dataset fs train_dataset_path) = Raise e)
         ∨ (∃ loaded train_dst,
              load model_path = Ok loaded
              ∧ outcome (load_dataset fs train_dataset_path) = Ok train_dst
              ∧ outcome (load_dataset fs val_dataset_path) = Raise e)).
Proof.
  unfold setup. rewrite io_bind_tell. cbn [outcome fst].
  destruct (load model_path) as [[model0 tokenizer0]|e0].
  - rewrite io_bind_lift_ok.
    destruct (load_dataset fs train_dataset_path) as [[tr|e1] t1];
      destruct (load_dataset fs val_dataset_path) as [[va|e2] t2];
      cbn; (split; [intros model tokenizer train_dst valid_dst|intros e]);
      split; try (intros [H|[(? & H & ?)|(? & ? & H & ? & ?)]]);
      intros; simplify_eq; eauto 10; try (destruct_and?; simplify_eq; done).
  - cbn. split; [intros model tokenizer train_dst valid_dst|intros e]; split;
      try (intros [H|[(? & H & ?)|(? & ? & H & ? & ?)]]);
      intros; simplify_eq; eauto; try (destruct_and?; simplify_eq; done).
Qed.

(** X14: the model is loaded first; when the training data cannot be
    loaded, whatever the reason, the run ends there and no file but the
    training file has been looked at: the validation path is not even
    tested for existence. *)
Theorem setup_training_data_first {T} (load : string → result (obj * T))
    (fs : filesystem) (loaded : obj * T) (e : exn) :
  load model_path = Ok loaded →
  outcome (load_dataset fs train_dataset_path) = Raise e →
  setup load fs
  = (Raise e,
     LoadModel model_path
       :: (FileAccess <$> effects (load_dataset fs train_dataset_path)))
  ∧ Forall (λ ev, ¬ touches_other train_dataset_path ev)
           (effects (setup load fs)).
Proof.
  intros Hload Htrain.
  assert (setup load fs
          = (Raise e,
             LoadModel model_path
               :: (FileAccess <$> effects (load_dataset fs train_dataset_path))))
    as Heq.
  { unfold setup. rewrite io_bind_tell, Hload. destruct loaded as [model tokenizer].
    rewrite io_bind_lift_ok.
    destruct (load_dataset fs train_dataset_path) as [[tr|e1] t1];
      simpl in Htrain; simplify_eq. reflexivity. }
  split; [done|]. rewrite Heq. cbn [effects snd].
  apply Forall_cons_2; [by intros []|].
  apply Forall_fmap.
  eapply Forall_impl; [apply effects_load_dataset_path|].
  intros ev Hev. simpl. by intros ?.
Qed.

(** X14 when both files are missing: only the training path is reported. *)
Lemma setup_training_data_first_witness :
  let load := λ _ : string, Ok (model_of [], tt) in
  let fs := λ _ : string, @None string in
  let e := FileNotFoundError train_dataset_path in
  setup load fs
  = (Raise e,
     LoadModel model_path
       :: (FileAccess <$> effects (load_dataset fs train_dataset_path)))
  ∧ Forall (λ ev, ¬ touches_other train_dataset_path ev)
           (effects (setup load fs)).
Proof.
  intros load fs e.
  apply (setup_training_data_first load fs (model_of [], tt) e); reflexivity.
Defined.

Lemma effects_tell {E} (P : E → Prop) (e : E) : P e → Forall P (effects (tell e)).
Proof. intros He. by apply Forall_cons_2. Qed.

Lemma effects_embed {E E' A} (P : E' → Prop) (f : E → E') (m : io E A) :
  (∀ e, P (f e)) → Forall P (effects (embed f m)).
Proof. intros Hf. apply Forall_fmap, Forall_true. intros e. apply Hf. Qed.

Lemma setup_ok {T} (load : string → result (obj * T)) fs model tokenizer
    train_dst valid_dst :
  load model_path = Ok (model, tokenizer) →
  outcome (load_dataset fs train_dataset_path) = Ok train_dst →
  outcome (load_dataset fs val_dataset_path) = Ok valid_dst →
  setup load fs
  = (Ok (model, tokenizer, train_dst, valid_dst),
     LoadModel model_path
       :: (FileAccess <$> effects (load_dataset fs train_dataset_path))
       ++ (FileAccess <$> effects (load_dataset fs val_dataset_path))).
Proof.
  intros Hload Htrain Hval. unfold setup.
  rewrite io_bind_tell, Hload, io_bind_lift_ok.
  destruct (load_dataset fs train_dataset_path) as [[tr|e1] t1];
    destruct (load_dataset fs val_dataset_path) as [[va|e2] t2];
    simpl in *; simplify_eq. by rewrite app_nil_r.
Qed.

Lemma effects_setup {T} (load : string → result (obj * T)) fs :
  Forall (λ ev, ¬ is_training ev) (effects (setup load fs)).
Proof.
  unfold setup.
  apply effects_bind; [apply effects_tell; by intros []|]. intros _.
  apply effects_bind; [apply effects_lift|]. intros [model tokenizer].
  apply effects_bind; [apply effects_embed; by intros e []|]. intros train_dst.
  apply effects_bind; [apply effects_embed; by intros e []|]. intros valid_dst.
  apply Forall_nil_2.
Qed.

(** X15: the run of the notebook calls the trainer at most once, as the
    last thing it does, and only after [setup] and the injector have both
    returned; the trainer is then given the model as the injector left it,
    the tokenizer and the two datasets of [setup].  If [setup] or the
    injector raises, the run ends with that exception and the trainer is
    never called. *)
Theorem main_trains_last_or_never {T} (load : string → result (obj * T))
    (fs : filesystem) :
  (∃ e,
      outcome (main load fs) = Raise e
      ∧ Forall (λ ev, ¬ is_training ev) (effects (main load fs))
      ∧ (outcome (setup load fs) = Raise e
         ∨ ∃ model tokenizer train_dst valid_dst,
             outcome (setup load fs) = Ok (model, tokenizer, train_dst, valid_dst)
             ∧ outcome (modify_model_with_lora model) = Raise e))
  ∨ (∃ model tokenizer train_dst valid_dst model' before call,
       outcome (setup load fs) = Ok (model, tokenizer, train_dst, valid_dst)
       ∧ outcome (modify_model_with_lora model) = Ok model'
       ∧ main load fs = (Ok tt, before ++ [Training (Train call)])
       ∧ Forall (λ ev, ¬ is_training ev) before
       ∧ call_model call = model'
       ∧ call_tokenizer call = tokenizer
       ∧ call_train_dataset call = train_dst
       ∧ call_val_dataset call = valid_dst).
Proof.
  pose proof (effects_setup load fs) as Hsetup. unfold main.
  destruct (setup load fs) as [[[[[model tokenizer] train_dst] valid_dst]|e] t0];
    cbn [effects snd] in Hsetup.
  - rewrite io_bind_pair. cbv beta iota.
    destruct (modify_model_with_lora model) as [[model'|e] t1] eqn:Hmodify.
    + right. exists model, tokenizer, train_dst, valid_dst, model'.
      exists (t0 ++ (Adaptation <$> t1)). eexists.
      split; [done|]. split; [by rewrite Hmodify|]. split.
      * cbn. rewrite app_assoc. reflexivity.
      * split; [|done]. apply Forall_app. split; [done|].
        apply Forall_fmap, Forall_true. by intros ev [].
    + left. exists e. split; [reflexivity|]. split.
      * cbn. apply Forall_app. split; [done|].
        apply Forall_fmap, Forall_true. by intros ev [].
      * right. exists model, tokenizer, train_dst, valid_dst.
        by rewrite Hmodify.
  - left. exists e. cbn. auto.
Qed.

(** X16: when the model and the two datasets load and the layers are
    well formed, the run returns; the files are read before the model is
    frozen, the model is adapted before the trainer is called, and the
    trainable parameters of the model the trainer is given are the
    low-rank pairs of the replacements of the run and nothing else. *)
Theorem main_trains_the_adapters {T} (load : string → result (obj * T))
    (fs : filesystem) (model : obj) (tokenizer : T)
    (train_dst valid_dst : Dataset) (layers : list obj) :
  load model_path = Ok (model, tokenizer) →
  outcome (load_dataset fs train_dataset_path) = Ok train_dst →
  outcome (load_dataset fs val_dataset_path) = Ok valid_dst →
  model_layers model = Ok layers →
  Forall wf_layer layers →
  ∃ model' log,
    modify_model_with_lora model = (Ok model', log)
    ∧ main load fs
      = (Ok tt,
         LoadModel model_path
           :: (FileAccess <$> effects (load_dataset fs train_dataset_path))
           ++ (FileAccess <$> effects (load_dataset fs val_dataset_path))
           ++ (Adaptation <$> log)
           ++ (Training <$> effects (train_model model' tokenizer train_dst valid_dst)))
    ∧ ∀ path,
        path ∈ trainable_parameters model'
        ↔ ∃ owner proj ab,
            SetAttr owner proj ∈ log
            ∧ (ab = "lora_a" ∨ ab = "lora_b")
            ∧ path = site_path owner ++ [Attr proj; Attr ab].
Proof.
  intros Hload Htrain Hval Hlayers Hwf.
  exists (adapted_model model), (model_log layers).
  split; [by apply modify_model_with_lora_eq|]. split.
  - unfold main.
    rewrite (setup_ok _ _ _ _ _ _ Hload Htrain Hval), io_bind_pair.
    rewrite (modify_model_with_lora_eq _ _ Hlayers Hwf).
    cbn. by rewrite <- !app_assoc.
  - intros path. by apply elem_of_trainable_adapted_model.
Qed.

(** X16 on two one-line files and a model of one dense layer. *)
Lemma main_trains_the_adapters_witness :
  let model := model_of [dense_layer partial_attention] in
  let load := λ _ : string, Ok (model, tt) in
  let fs := λ _ : string, Some (line_a +:+ LF) in
  let ds := Dataset__init__ [PyDict [("text", PyStr "a")]] in
  ∃ model' log,
    modify_model_with_lora model = (Ok model', log)
    ∧ main load fs
      = (Ok tt,
         LoadModel model_path
           :: (FileAccess <$> effects (load_dataset fs train_dataset_path))
           ++ (FileAccess <$> effects (load_dataset fs val_dataset_path))
           ++ (Adaptation <$> log)
           ++ (Training <$> effects (train_model model' tt ds ds)))
    ∧ ∀ path,
        path ∈ trainable_parameters model'
        ↔ ∃ owner proj ab,
            SetAttr owner proj ∈ log
            ∧ (ab = "lora_a" ∨ ab = "lora_b")
            ∧ path = site_path owner ++ [Attr proj; Attr ab].
Proof.
  intros model load fs ds.
  apply (main_trains_the_adapters load fs model tt ds ds
                                  [dense_layer partial_attention]).
  - reflexivity.
  - vm_compute. reflexivity.
  - vm_compute. reflexivity.
  - reflexivity.
  - apply Forall_cons_2; [apply wf_dense_layer|apply Forall_nil_2].
Defined.
